(** * WinToTalk: the speech dispatch core of [WinToTalk.py]

    A shallow embedding of the listener's core: the rate conversion
    [rate_to_sapi], the voice catalogue [select_voice], the session
    functions [speak] and [cancel_speech], and the message handler
    [process_message], together with the threads that [speak] starts.

    The SAPI engine is an external collaborator.  The model records the
    calls the program makes on [SpVoice] (property writes and [Speak]),
    in the order in which the engine receives them.  Reads of the engine
    ([GetVoices], [GetDescription]) change nothing and are not recorded.
    Engine calls and [print] are taken not to fail. *)

From Stdlib Require Import ZArith Ascii String Floats.
From stdpp Require Import gmap strings list fin_maps.

Local Open Scope Z_scope.

(** ** Python values and exceptions *)

(** The exceptions the modelled code can raise; all of them are
    subclasses of Python's [Exception]. *)
Inductive exn :=
| JSONDecodeError
| AttributeError
| TypeError
| KeyError
| ValueError
| OverflowError
| ZeroDivisionError.

Inductive result (A : Type) :=
| Ok (a : A)
| Raise (e : exn).
Arguments Ok {A} a.
Arguments Raise {A} e.

(** What [json.loads] can return: [None], [bool], [int] (unbounded),
    [float] (binary64), [str], [list] and [dict] with string keys. *)
#[warnings="-register-all"]
Inductive value :=
| VNone
| VBool (b : bool)
| VInt (z : Z)
| VFloat (f : float)
| VStr (s : string)
| VList (l : list value)
| VDict (d : gmap string value).

(** ** Strings *)

(** [str.lower] on one character.  Strings are sequences of bytes and
    only the ASCII capitals are mapped.  The words the program compares
    with ("german", "male", "female" and the display names) are ASCII,
    and outside ASCII only the Kelvin sign and the dotted capital I
    lower to ASCII letters (k and i), which occur in none of the three
    words: the choice of the voice is decided by the ASCII capitals
    alone.  A voice description containing one of those two characters
    is outside the model. *)
Definition lower_ascii (c : ascii) : ascii :=
  let n := nat_of_ascii c in
  if ((65 <=? n) && (n <=? 90))%nat then ascii_of_nat (n + 32) else c.

Fixpoint lower (s : string) : string :=
  match s with
  | EmptyString => EmptyString
  | String c s' => String (lower_ascii c) (lower s')
  end.

(** [s.startswith(p)] *)
Fixpoint startswith (s p : string) : bool :=
  match p, s with
  | EmptyString, _ => true
  | String _ _, EmptyString => false
  | String a p', String b s' => if decide (a = b) then startswith s' p' else false
  end.

(** [needle in hay] on strings *)
Fixpoint contains (hay needle : string) : bool :=
  startswith hay needle ||
  match hay with
  | EmptyString => false
  | String _ hay' => contains hay' needle
  end.

(** [v.lower()] on a value of any type: only [str] has the method. *)
Definition str_lower (v : value) : result string :=
  match v with
  | VStr s => Ok (lower s)
  | _ => Raise AttributeError
  end.

(** [data.get(key, fallback)] on a value of any type: only [dict] has it. *)
Definition dict_get (data : value) (key : string) (fallback : value) : result value :=
  match data with
  | VDict d => Ok (default fallback (d !! key))
  | _ => Raise AttributeError
  end.

(** ** Voice configuration *)

Definition EN_NEUTRAL : string := "Microsoft Catherine".
Definition EN_FEMALE : string := "Microsoft Susan".
Definition EN_MALE : string := "Microsoft Richard".
Definition DE_NEUTRAL : string := "Microsoft Hedda Desktop".
Definition DE_FEMALE : string := "Microsoft Katja".
Definition DE_MALE : string := "Microsoft Karsten".

Definition DEFAULT_RATE : Z := 300.
Definition DEFAULT_VOLUME : Z := 100.

Definition VOICE_MAP : gmap string string :=
  <["EN_NEUTRAL" := EN_NEUTRAL]> (
  <["EN_FEMALE" := EN_FEMALE]> (
  <["EN_MALE" := EN_MALE]> (
  <["DE_NEUTRAL" := DE_NEUTRAL]> (
  <["DE_FEMALE" := DE_FEMALE]> (
  <["DE_MALE" := DE_MALE]> ∅))))).

(** ** Rate conversion

    [rate_to_sapi] computes [int(diff / 20)].  On two [int]s Python's
    [/] is true division: the exact quotient rounded to the nearest
    binary64 (ties to even), and [OverflowError] when that rounds beyond
    the largest finite binary64.  [int] then truncates toward zero. *)

(** [b * 2^k <= a], also for negative [k]. *)
Definition le_scaled (b k a : Z) : bool :=
  if 0 <=? k then b * 2 ^ k <=? a else b <=? a * 2 ^ (- k).

(** The integer [L] with [2^L <= a / b < 2^(L+1)], for [a, b > 0]. *)
Definition quotient_log2 (a b : Z) : Z :=
  let k := Z.log2 a - Z.log2 b in
  if le_scaled b k a then k else k - 1.

(** The integer nearest to [n / d], ties to even, for [n >= 0], [d > 0]. *)
Definition round_half_even (n d : Z) : Z :=
  let q := n / d in
  match 2 * (n mod d) ?= d with
  | Lt => q
  | Gt => q + 1
  | Eq => if Z.even q then q else q + 1
  end.

(** The binary64 significand of [a / b] at exponent [e]. *)
Definition quotient_mantissa (a b e : Z) : Z :=
  if 0 <=? e then round_half_even a (b * 2 ^ e)
  else round_half_even (a * 2 ^ (- e)) b.

(** [x / y] on [int] operands. *)
Definition int_true_divide (x y : Z) : result spec_float :=
  if y =? 0 then Raise ZeroDivisionError
  else if x =? 0 then Ok (S754_zero (y <? 0))
  else
    let a := Z.abs x in
    let b := Z.abs y in
    let sign := xorb (x <? 0) (y <? 0) in
    let e := Z.max (quotient_log2 a b - 52) (-1074) in
    let m := quotient_mantissa a b e in
    if (0 <=? e) && (2 ^ 1024 <=? m * 2 ^ e) then Raise OverflowError
    else if m =? 0 then Ok (S754_zero sign)
    else if m =? 2 ^ 53 then Ok (S754_finite sign (Z.to_pos (2 ^ 52)) (e + 1))
    else Ok (S754_finite sign (Z.to_pos m) e).

(** [int(x)] on a [float]. *)
Definition int_of_float (x : spec_float) : result Z :=
  match x with
  | S754_zero _ => Ok 0
  | S754_infinity _ => Raise OverflowError
  | S754_nan => Raise ValueError
  | S754_finite s m e =>
      let a := if 0 <=? e then Z.pos m * 2 ^ e else Z.pos m / 2 ^ (- e) in
      Ok (if s then - a else a)
  end.

(** [rate_wpm - baseline] followed by [/ 20], by the type of [rate_wpm]:
    [bool] is a subclass of [int]; a [float] operand makes both
    operations binary64 ones; the other types have no [-] with an
    [int]. *)
Definition diff_over_20 (rate_wpm : value) : result spec_float :=
  let baseline := 200 in
  match rate_wpm with
  | VInt z => int_true_divide (z - baseline) 20
  | VBool b => int_true_divide (Z.b2z b - baseline) 20
  | VFloat f => Ok (Prim2SF ((f - 200) / 20)%float)
  | _ => Raise TypeError
  end.

(** The least [|diff|] at which [diff / 20] no longer rounds to a finite
    binary64: the midpoint between the largest one, [2^1024 - 2^971],
    and [2^1024], times 20. *)
Definition overflow_bound : Z := 20 * (2 ^ 1024 - 2 ^ 970).

Definition rate_to_sapi (rate_wpm : value) : result Z :=
  match diff_over_20 rate_wpm with
  | Raise e => Raise e
  | Ok quotient =>
      match int_of_float quotient with
      | Raise e => Raise e
      | Ok sapi_rate => Ok (Z.max (-10) (Z.min 10 sapi_rate))
      end
  end.


(** ** The engine and the program state *)

(** A voice token of the engine, with what [GetDescription] returns. *)
Record sapi_voice := { token : nat; GetDescription : string }.

(** The calls the engine receives: the property writes [SpVoice.Volume],
    [SpVoice.Rate] and [SpVoice.Voice], and [SpVoice.Speak(text, flags)]. *)
Inductive call :=
| SetVolume (volume : Z)
| SetRate (rate : Z)
| SetVoice (v : sapi_voice)
| Speak (text : value) (flags : Z).

(** The call of [cancel_speech]: [Speak] with the empty text and flags 3. *)
Definition purge : call := Speak (VStr EmptyString) 3.

(** Flag 2 is SAPI's purge-before-speak, flag 1 its asynchronous mode;
    3 carries both. *)
Definition purges (flags : Z) : bool := Z.testbit flags 1.

(** The closure [run] of one [speak] call: what the thread will use. *)
Record worker := {
  w_text : value;
  w_language : value;
  w_gender : value;
  w_rate : value;
  w_volume : Z
}.

(** What the program prints (time stamps left out). *)
Inductive line :=
| PrintSay (language gender speaker rate payload : value)
| PrintCancel
| PrintMessageError (e : exn)
| PrintSelected (chosen voice_name : string)
| PrintWarning (voice_name : string).

(** The state: the voices the engine enumerates, the calls it has
    received so far (oldest first), the threads started by [speak] that
    have not yet run, and the output.  The global [current_speak_thread]
    is only ever written and is left out. *)
Record system := {
  GetVoices : list sapi_voice;
  calls : list call;
  threads : list worker;
  stdout : list line
}.

(** Code that changes the state and may raise: the state reached is
    kept when an exception is raised. *)
Definition M (A : Type) : Type := system -> result A * system.

Definition ret {A} (a : A) : M A := fun s => (Ok a, s).

Definition bind {A B} (m : M A) (k : A -> M B) : M B :=
  fun s =>
    match m s with
    | (Ok a, s') => k a s'
    | (Raise e, s') => (Raise e, s')
    end.

Definition lift {A} (r : result A) : M A := fun s => (r, s).

Notation "x <~ m ;; k" := (bind m (fun x => k))
  (at level 200, m at level 99, k at level 200, only parsing).
Notation "m ;;; k" := (bind m (fun _ => k))
  (at level 200, k at level 200, only parsing).

Definition push_call (c : call) (s : system) : system :=
  {| GetVoices := GetVoices s; calls := calls s ++ [c];
     threads := threads s; stdout := stdout s |}.

Definition push_line (l : line) (s : system) : system :=
  {| GetVoices := GetVoices s; calls := calls s;
     threads := threads s; stdout := stdout s ++ [l] |}.

Definition push_thread (w : worker) (s : system) : system :=
  {| GetVoices := GetVoices s; calls := calls s;
     threads := threads s ++ [w]; stdout := stdout s |}.

Definition engine_call (c : call) : M unit := fun s => (Ok tt, push_call c s).

Definition print (l : line) : M unit := fun s => (Ok tt, push_line l s).

Definition start_thread (w : worker) : M unit := fun s => (Ok tt, push_thread w s).

Definition get_voices : M (list sapi_voice) := fun s => (Ok (GetVoices s), s).

(** ** Voice selection *)

(** [gender.lower() == word] *)
Definition gender_is (gender : value) (word : string) : result bool :=
  match str_lower gender with
  | Ok g => Ok (bool_decide (g = word))
  | Raise e => Raise e
  end.

Definition if_else {A} (test : result bool) (yes no : result A) : result A :=
  match test with
  | Ok true => yes
  | Ok false => no
  | Raise e => Raise e
  end.

(** The nested conditionals of [select_voice]. *)
Definition choose_voice (language gender : value) : result string :=
  match str_lower language with
  | Raise e => Raise e
  | Ok lang =>
      if startswith lang "german" then
        if_else (gender_is gender "male") (Ok "DE_MALE"%string)
          (if_else (gender_is gender "female") (Ok "DE_FEMALE"%string)
             (Ok "DE_NEUTRAL"%string))
      else
        if_else (gender_is gender "male") (Ok "EN_MALE"%string)
          (if_else (gender_is gender "female") (Ok "EN_FEMALE"%string)
             (Ok "EN_NEUTRAL"%string))
  end.

(** The test of the loop over [SpVoice.GetVoices()]. *)
Definition matches (voice_name : string) (v : sapi_voice) : bool :=
  contains (lower (GetDescription v)) (lower voice_name).

(** The first enumerated voice the loop stops at, if any. *)
Definition first_match (voice_name : string) (vs : list sapi_voice) : option sapi_voice :=
  List.find (matches voice_name) vs.

Definition select_voice (language gender : value) : M (string * string) :=
  chosen <~ lift (choose_voice language gender) ;;
  voice_name <~ lift (match VOICE_MAP !! chosen with
                      | Some n => Ok n
                      | None => Raise KeyError
                      end) ;;
  vs <~ get_voices ;;
  match first_match voice_name vs with
  | Some v =>
      engine_call (SetVoice v) ;;;
      print (PrintSelected chosen voice_name) ;;;
      ret (chosen, voice_name)
  | None =>
      print (PrintWarning voice_name) ;;;
      ret (chosen, "Default system voice"%string)
  end.

(** ** Speaking and cancelling *)

Definition cancel_speech : M unit := engine_call purge.

(** The body of the thread, under [voice_lock]. *)
Definition run (w : worker) : M unit :=
  engine_call (SetVolume (Z.max 0 (Z.min 100 (w_volume w)))) ;;;
  sapi_rate <~ lift (rate_to_sapi (w_rate w)) ;;
  engine_call (SetRate sapi_rate) ;;;
  select_voice (w_language w) (w_gender w) ;;;
  engine_call (Speak (w_text w) 1).

Definition speak (text language gender rate : value) (volume : Z) : M unit :=
  cancel_speech ;;;
  start_thread {| w_text := text; w_language := language; w_gender := gender;
                  w_rate := rate; w_volume := volume |}.

(** ** Message handling *)

(** The [try] block of [process_message], from the outcome of
    [json.loads(msg)], which is the standard library's: [Raise] when it
    rejects the text, [Ok data] with the decoded value otherwise. *)
Definition handle (loaded : result value) : M unit :=
  data <~ lift loaded ;;
  type_field <~ lift (dict_get data "Type" (VStr EmptyString)) ;;
  msg_type <~ lift (str_lower type_field) ;;
  if decide (msg_type = "say") then
    payload <~ lift (dict_get data "Payload" (VStr EmptyString)) ;;
    language <~ lift (dict_get data "Language" (VStr "English")) ;;
    voice_info <~ lift (dict_get data "Voice" (VDict ∅)) ;;
    gender <~ lift (dict_get voice_info "Name" (VStr "None")) ;;
    rate <~ lift (dict_get data "Rate" (VInt DEFAULT_RATE)) ;;
    speaker <~ lift (dict_get data "Speaker" (VStr "Unknown")) ;;
    print (PrintSay language gender speaker rate payload) ;;;
    speak payload language gender rate DEFAULT_VOLUME
  else if decide (msg_type = "cancel") then
    print PrintCancel ;;;
    cancel_speech
  else ret tt.

(** [process_message]: [except Exception] prints the error, and the
    function returns normally. *)
Definition process_message (loaded : result value) : M unit :=
  fun s =>
    match handle loaded s with
    | (Ok _, s') => (Ok tt, s')
    | (Raise e, s') => print (PrintMessageError e) s'
    end.

(** ** Threads

    [speak] starts a thread and returns; nothing joins it.  The thread
    body and [cancel_speech] take [voice_lock] for all their engine
    calls, so each of them reaches the engine as one block, and the
    blocks of threads that have been started may be taken in any order,
    also after later messages have been handled.  An exception ends the
    thread that raised it. *)

Definition run_thread (i : nat) (s : system) : system :=
  match threads s !! i with
  | Some w =>
      snd (run w {| GetVoices := GetVoices s; calls := calls s;
                    threads := delete i (threads s); stdout := stdout s |})
  | None => s
  end.

Inductive event :=
| Receive (loaded : result value)
| Schedule (i : nat).

Definition step (s : system) (ev : event) : system :=
  match ev with
  | Receive loaded => snd (process_message loaded s)
  | Schedule i => run_thread i s
  end.

Definition exec (evs : list event) (s : system) : system := foldl step s evs.

(** The program at start: nothing sent to the engine, no thread. *)
Definition boot (voices : list sapi_voice) : system :=
  {| GetVoices := voices; calls := []; threads := []; stdout := [] |}.

(** Every thread runs before the next message is handled. *)
Definition in_order (msgs : list (result value)) : list event :=
  flat_map (fun loaded => [Receive loaded; Schedule 0%nat]) msgs.

(** ** Messages used below *)

(** A well-formed Say message with the text [text]. *)
Definition say (text : string) : value :=
  VDict (<["Type" := VStr "Say"]> (<["Payload" := VStr text]> ∅)).

(** Scenario A of the specification. *)
Definition scenario_A : value :=
  VDict (<["Type" := VStr "Say"]> (
         <["Payload" := VStr "Hello"]> (
         <["Language" := VStr "English"]> (
         <["Voice" := VDict (<["Name" := VStr "Male"]> ∅)]> (
         <["Rate" := VInt 300]> ∅))))).

(** An object with [Type] "say" and nothing else. *)
Definition say_without_payload : value := VDict (<["Type" := VStr "say"]> ∅).

(** The thread a Say message without any other field starts. *)
Definition default_worker : worker :=
  {| w_text := VStr EmptyString; w_language := VStr "English"; w_gender := VStr "None";
     w_rate := VInt DEFAULT_RATE; w_volume := DEFAULT_VOLUME |}.

(** ** What the specification says, in its own words *)

Module Spec.

Inductive VoiceIdentity :=
| EN_NEUTRAL | EN_FEMALE | EN_MALE | DE_NEUTRAL | DE_FEMALE | DE_MALE.

Inductive LanguageAxis := English | German.
Inductive GenderAxis := Male | Female | Neutral.

(** Prefix match on "german", case-insensitive; else English. *)
Definition language_axis (language : string) : LanguageAxis :=
  if startswith (lower language) "german" then German else English.

(** Exact case-insensitive match on "male" or "female"; anything else
    is Neutral. *)
Definition gender_axis (genderHint : string) : GenderAxis :=
  if decide (lower genderHint = "male") then Male
  else if decide (lower genderHint = "female") then Female
  else Neutral.

Definition combine (l : LanguageAxis) (g : GenderAxis) : VoiceIdentity :=
  match l, g with
  | English, Neutral => EN_NEUTRAL
  | English, Female => EN_FEMALE
  | English, Male => EN_MALE
  | German, Neutral => DE_NEUTRAL
  | German, Female => DE_FEMALE
  | German, Male => DE_MALE
  end.

Definition Resolve (language genderHint : string) : VoiceIdentity :=
  combine (language_axis language) (gender_axis genderHint).

(** The display name of each identity. *)
Definition display_name (v : VoiceIdentity) : string :=
  match v with
  | EN_NEUTRAL => "Microsoft Catherine"
  | EN_FEMALE => "Microsoft Susan"
  | EN_MALE => "Microsoft Richard"
  | DE_NEUTRAL => "Microsoft Hedda Desktop"
  | DE_FEMALE => "Microsoft Katja"
  | DE_MALE => "Microsoft Karsten"
  end.

(** The key of the identity in the program's [VOICE_MAP]. *)
Definition key (v : VoiceIdentity) : string :=
  match v with
  | EN_NEUTRAL => "EN_NEUTRAL"
  | EN_FEMALE => "EN_FEMALE"
  | EN_MALE => "EN_MALE"
  | DE_NEUTRAL => "DE_NEUTRAL"
  | DE_FEMALE => "DE_FEMALE"
  | DE_MALE => "DE_MALE"
  end.

Definition clamp (x lo hi : Z) : Z := Z.max lo (Z.min hi x).

(** The integer nearest to [n / d] for [d > 0]; a tie goes to the even
    neighbour, as Python's [round] has it. *)
Definition round (n d : Z) : Z :=
  if 0 <=? n then round_half_even n d else - round_half_even (- n) d.

(** [engineRate = clamp(round((wpm - 200) / 20), -10, 10)] *)
Definition NormalizeRate (wpm : Z) : Z := clamp (round (wpm - 200) 20) (-10) 10.

(** Modelled from the spec: the session state machine of the external
    engine (section 4.3), which the sources do not contain.  A speak
    call takes the session to [Speaking], a purge takes it to [Idle];
    the property writes do not move it. *)
Inductive session := Idle | Speaking.

Definition session_step (st : session) (c : call) : session :=
  match c with
  | Speak _ flags => if purges flags then Idle else Speaking
  | _ => st
  end.

Definition session_of (cs : list call) : session := foldl session_step Idle cs.

(** Modelled from the spec: what the engine holds after a sequence of
    calls (section 6): the volume, rate and voice last written, if
    any, and the session state. *)
Record engine := {
  Volume : option Z;
  Rate : option Z;
  Voice : option sapi_voice;
  state : session
}.

Definition engine_step (en : engine) (c : call) : engine :=
  match c with
  | SetVolume v => {| Volume := Some v; Rate := Rate en; Voice := Voice en; state := state en |}
  | SetRate r => {| Volume := Volume en; Rate := Some r; Voice := Voice en; state := state en |}
  | SetVoice v => {| Volume := Volume en; Rate := Rate en; Voice := Some v; state := state en |}
  | Speak _ _ => {| Volume := Volume en; Rate := Rate en; Voice := Voice en;
                    state := session_step (state en) c |}
  end.

Definition engine_of (cs : list call) : engine :=
  foldl engine_step {| Volume := None; Rate := None; Voice := None; state := Idle |} cs.

(** P1 on a sequence of engine calls: every speak call that is not a
    purge has a purge between it and the speak call before it.
    [purged] tells whether a purge has been received since the last
    speak call. *)
Definition purged_step (purged : bool) (c : call) : bool :=
  match c with
  | Speak _ flags => purges flags
  | _ => purged
  end.

Fixpoint purge_before_each_speak (purged : bool) (cs : list call) : bool :=
  match cs with
  | [] => true
  | c :: cs' =>
      match c with
      | Speak _ flags => purges flags || purged
      | _ => true
      end && purge_before_each_speak (purged_step purged c) cs'
  end.

End Spec.

(** What can be observed of the program: the engine, the threads still
    to run, and the voices the engine offers. *)
Definition observe (s : system) : Spec.engine * list worker * list sapi_voice :=
  (Spec.engine_of (calls s), threads s, GetVoices s).

(** The calls a thread can make after it has set the volume: none when
    the rate conversion raises, the rate alone when the voice selection
    raises, else the rate, the voice if one matches, and the speak call. *)
Definition thread_tail (w : worker) (tail : list call) : Prop :=
  tail = [] \/
  exists r, tail = [SetRate r] \/
            tail = [SetRate r; Speak (w_text w) 1] \/
            exists v, tail = [SetRate r; SetVoice v; Speak (w_text w) 1].

(** What a Say message makes of the state. *)
Definition said (d : gmap string value) (voice_info : gmap string value) (s : system) : system :=
  let payload := default (VStr EmptyString) (d !! "Payload") in
  let language := default (VStr "English") (d !! "Language") in
  let gender := default (VStr "None") (voice_info !! "Name") in
  let rate := default (VInt DEFAULT_RATE) (d !! "Rate") in
  let speaker := default (VStr "Unknown") (d !! "Speaker") in
  push_thread {| w_text := payload; w_language := language; w_gender := gender;
                 w_rate := rate; w_volume := DEFAULT_VOLUME |}
    (push_call purge (push_line (PrintSay language gender speaker rate payload) s)).

(** The volume invariant: every thread waiting to run was given volume
    100, and the engine has never been sent another volume. *)
Definition volume_100 (s : system) : Prop :=
  Forall (fun w => w_volume w = 100) (threads s) /\
  Forall (fun c => forall v, c = SetVolume v -> v = 100) (calls s).

(** No thread is waiting, and the calls so far satisfy P1. *)
Definition quiet (s : system) : Prop :=
  threads s = [] /\ Spec.purge_before_each_speak false (calls s) = true.

(** An engine voice that none of the six display names matches. *)
Definition zira : sapi_voice :=
  {| token := 0; GetDescription := "Microsoft Zira Desktop - English (United States)" |}.

(** Whether [rate_to_sapi] at [200 + x] is the truncated quotient,
    clamped; used to check the differences near the baseline one by
    one. *)
Definition truncates_at (x : Z) : bool :=
  match rate_to_sapi (VInt (200 + x)) with
  | Ok r => r =? Spec.clamp (Z.quot x 20) (-10) 10
  | Raise _ => false
  end.

(** ** The calls of a run, classified and counted *)

(** A speak call that is no purge: what a thread ends with. *)
Definition is_speech (c : call) : bool :=
  match c with
  | Speak _ flags => negb (purges flags)
  | _ => false
  end.

Definition is_purge (c : call) : bool :=
  match c with
  | Speak _ flags => purges flags
  | _ => false
  end.

Definition speeches (cs : list call) : nat := length (List.filter is_speech cs).

Definition purges_sent (cs : list call) : nat := length (List.filter is_purge cs).

Definition is_receive (ev : event) : bool :=
  match ev with
  | Receive _ => true
  | Schedule _ => false
  end.

Definition received (evs : list event) : nat := length (List.filter is_receive evs).

(** What every call the program sends has to be, on an engine offering
    [voices]: volume 100, a rate of the engine's range, a voice the
    engine enumerates whose description contains a name of [VOICE_MAP],
    the purge, or an asynchronous speak call. *)
Definition call_safe (voices : list sapi_voice) (c : call) : Prop :=
  match c with
  | SetVolume v => v = 100
  | SetRate r => -10 <= r <= 10
  | SetVoice v =>
      v ∈ voices /\
      exists chosen voice_name,
        VOICE_MAP !! chosen = Some voice_name /\ matches voice_name v = true
  | Speak _ flags => c = purge \/ flags = 1
  end.

(** The invariant behind [call_safe]. *)
Definition safe (voices : list sapi_voice) (s : system) : Prop :=
  GetVoices s = voices /\
  Forall (fun w => w_volume w = 100) (threads s) /\
  Forall (call_safe voices) (calls s).

(** The counting invariant after [n] messages: a purge for every speak
    call made or still to come, a message for every purge. *)
Definition paid_for (n : nat) (s : system) : Prop :=
  (speeches (calls s) + length (threads s) <= purges_sent (calls s))%nat /\
  (purges_sent (calls s) <= n)%nat.

(** Whether a value is a [str]. *)
Definition is_str (v : value) : bool :=
  match v with
  | VStr _ => true
  | _ => false
  end.

(** Whether [rate_wpm - baseline] is defined: [int], [bool], [float]. *)
Definition is_number (v : value) : bool :=
  match v with
  | VInt _ | VBool _ | VFloat _ => true
  | _ => false
  end.

(** ** The connection loop

    [websocket_loop] connects, prints, and hands every text it receives
    to [process_message]; any exception sends it to its [except] branch,
    which prints the error, sleeps a second and connects again.  The
    transport is outside the program: the loop is modelled by what it
    does at each thing that happens to it.  What cannot happen in the
    loop's state (a text while it is not connected) changes nothing.
    The lines the loop prints itself are kept apart from [stdout]. *)

Inductive transport_error := ConnectionRefused | ConnectionClosed | PingTimeout.

Inductive ws_line :=
| PrintConnected
| PrintWebSocketError (cause : exn + transport_error).

Inductive happening :=
| ConnectFails (e : transport_error)
| ConnectOk
| Recv (loaded : result value)
| RecvFails (e : transport_error)
| ThreadRuns (i : nat).

Record listener := {
  program : system;
  connected : bool;
  ws_stdout : list ws_line;
  sleeps : nat
}.

(** The [except] branch of [websocket_loop]. *)
Definition ws_error (cause : exn + transport_error) (s : system) (l : listener) : listener :=
  {| program := s; connected := false;
     ws_stdout := ws_stdout l ++ [PrintWebSocketError cause];
     sleeps := S (sleeps l) |}.

Definition websocket_step (l : listener) (h : happening) : listener :=
  match h, connected l with
  | ConnectFails e, false => ws_error (inr e) (program l) l
  | ConnectOk, false =>
      {| program := program l; connected := true;
         ws_stdout := ws_stdout l ++ [PrintConnected]; sleeps := sleeps l |}
  | Recv loaded, true =>
      match process_message loaded (program l) with
      | (Ok _, s') =>
          {| program := s'; connected := true;
             ws_stdout := ws_stdout l; sleeps := sleeps l |}
      | (Raise e, s') => ws_error (inl e) s' l
      end
  | RecvFails e, true => ws_error (inr e) (program l) l
  | ThreadRuns i, _ =>
      {| program := run_thread i (program l); connected := connected l;
         ws_stdout := ws_stdout l; sleeps := sleeps l |}
  | _, _ => l
  end.

Definition websocket_loop (hs : list happening) (l : listener) : listener :=
  foldl websocket_step l hs.

Definition main (voices : list sapi_voice) : listener :=
  {| program := boot voices; connected := false; ws_stdout := []; sleeps := 0 |}.

(** The messages the loop has handled, and the threads that have run,
    in order: what [exec] takes. *)
Fixpoint handled (hs : list happening) (is_connected : bool) : list event :=
  match hs with
  | [] => []
  | h :: hs' =>
      match h, is_connected with
      | ConnectFails _, false => handled hs' false
      | ConnectOk, false => handled hs' true
      | Recv loaded, true => Receive loaded :: handled hs' true
      | RecvFails _, true => handled hs' false
      | ThreadRuns i, _ => Schedule i :: handled hs' is_connected
      | _, _ => handled hs' is_connected
      end
  end.

(** ** The test server's messages ([TestServer.py])

    [send_loop] sends [json.dumps] of the dict display that puts [Type]
    "Say" first and the payload's items after it, so that a payload's own
    items win.  What the listener decodes is taken to be the object the
    server encoded. *)

Definition payload (language name gender text : string) : gmap string value :=
  <["Language" := VStr language]> (
  <["Voice" := VDict (<["Name" := VStr name]> ∅)]> (
  <["Gender" := VStr gender]> (
  <["Payload" := VStr text]> (
  <["Speaker" := VStr "Test"]> ∅)))).

Definition payloads : list (gmap string value) :=
  [ payload "English" "None" "None" "This is english Neutral test.";
    payload "English" "Female" "Female" "This is english Female test.";
    payload "English" "Male" "Male" "This english Male test.";
    payload "German" "None" "None" "Das ist deutsch neutral test.";
    payload "German" "Female" "Female" "Das ist deutsch Weiblich test.";
    payload "German" "Male" "Male" "Das ist deutsch m√§nnlich test." ].

Definition test_message (p : gmap string value) : value :=
  VDict (p ∪ {["Type" := VStr "Say"]}).

(** The voices chosen by the threads a message starts. *)
Definition voices_chosen (m : value) : list (result string) :=
  map (fun w => choose_voice (w_language w) (w_gender w))
    (threads (snd (process_message (Ok m) (boot [])))).

(** Two engine voices that the name of DE_NEUTRAL matches. *)
Definition hedda : sapi_voice :=
  {| token := 1; GetDescription := "Microsoft Hedda Desktop - German" |}.

Definition hedda_again : sapi_voice :=
  {| token := 2; GetDescription := "MICROSOFT HEDDA DESKTOP (copy)" |}.

(** * Properties *)

(** ** True division of integers *)

Lemma le_scaled_true b k a : le_scaled b k a = true <->
  (0 <= k /\ b * 2 ^ k <= a) \/ (k < 0 /\ b <= a * 2 ^ (- k)).
Proof.
  unfold le_scaled. destruct (Z.leb_spec 0 k); rewrite Z.leb_le; lia.
Qed.

Lemma le_scaled_false b k a : le_scaled b k a = false <->
  (0 <= k /\ a < b * 2 ^ k) \/ (k < 0 /\ a * 2 ^ (- k) < b).
Proof.
  unfold le_scaled. destruct (Z.leb_spec 0 k); rewrite Z.leb_gt; lia.
Qed.

Lemma pow2_split (x y : Z) : 0 <= x -> 0 <= y -> 2 ^ (x + y) = 2 ^ x * 2 ^ y.
Proof. intros. apply Z.pow_add_r; assumption. Qed.

Lemma pow2_pos (x : Z) : 0 <= x -> 0 < 2 ^ x.
Proof. intros. apply Z.pow_pos_nonneg; lia. Qed.

Lemma pow2_mono (x y : Z) : 0 <= x <= y -> 2 ^ x <= 2 ^ y.
Proof. intros. apply Z.pow_le_mono_r; lia. Qed.

Section QuotientLog2.

Variables a b : Z.
Hypothesis Ha : 0 < a.
Hypothesis Hb : 0 < b.

Lemma quotient_log2_lower : le_scaled b (quotient_log2 a b) a = true.
Proof.
  unfold quotient_log2.
  destruct (le_scaled b (Z.log2 a - Z.log2 b) a) eqn:E; [exact E|].
  destruct (Z.log2_spec a Ha) as [Ha1 Ha2], (Z.log2_spec b Hb) as [Hb1 Hb2].
  pose proof (Z.log2_nonneg a) as Hla. pose proof (Z.log2_nonneg b) as Hlb.
  set (la := Z.log2 a) in *. set (lb := Z.log2 b) in *.
  apply le_scaled_true.
  destruct (Z_le_gt_dec 0 (la - lb - 1)) as [Hk|Hk]; [left|right]; split; try lia.
  - assert (2 ^ la = 2 ^ Z.succ lb * 2 ^ (la - lb - 1)) as Hs.
    { rewrite <- pow2_split by lia. f_equal. lia. }
    pose proof (pow2_pos (la - lb - 1) Hk). nia.
  - assert (2 ^ Z.succ lb = 2 ^ la * 2 ^ (- (la - lb - 1))) as Hs.
    { rewrite <- pow2_split by lia. f_equal. lia. }
    assert (0 < 2 ^ (- (la - lb - 1))) by (apply pow2_pos; lia). nia.
Qed.

Lemma quotient_log2_upper : le_scaled b (quotient_log2 a b + 1) a = false.
Proof.
  unfold quotient_log2.
  destruct (le_scaled b (Z.log2 a - Z.log2 b) a) eqn:E.
  - destruct (Z.log2_spec a Ha) as [Ha1 Ha2], (Z.log2_spec b Hb) as [Hb1 Hb2].
    pose proof (Z.log2_nonneg a) as Hla. pose proof (Z.log2_nonneg b) as Hlb.
    set (la := Z.log2 a) in *. set (lb := Z.log2 b) in *.
    apply le_scaled_false.
    destruct (Z_le_gt_dec 0 (la - lb + 1)) as [Hk|Hk]; [left|right]; split; try lia.
    + assert (2 ^ Z.succ la = 2 ^ lb * 2 ^ (la - lb + 1)) as Hs.
      { rewrite <- pow2_split by lia. f_equal. lia. }
      pose proof (pow2_pos (la - lb + 1) Hk). nia.
    + assert (2 ^ lb = 2 ^ Z.succ la * 2 ^ (- (la - lb + 1))) as Hs.
      { rewrite <- pow2_split by lia. f_equal. lia. }
      assert (0 < 2 ^ (- (la - lb + 1))) by (apply pow2_pos; lia). nia.
  - replace (Z.log2 a - Z.log2 b - 1 + 1) with (Z.log2 a - Z.log2 b) by lia. exact E.
Qed.

(** [quotient_log2] is the largest exponent whose power fits. *)
Lemma quotient_log2_ge n : 0 <= n -> b * 2 ^ n <= a -> n <= quotient_log2 a b.
Proof.
  intros Hn Hle.
  destruct (Z_le_gt_dec n (quotient_log2 a b)) as [|Hgt]; [assumption|exfalso].
  pose proof quotient_log2_upper as Hup.
  apply le_scaled_false in Hup.
  pose proof (pow2_pos n Hn).
  destruct Hup as [[H0 Hlt]|[H0 Hlt]].
  - pose proof (pow2_mono (quotient_log2 a b + 1) n ltac:(lia)). nia.
  - assert (0 < 2 ^ (- (quotient_log2 a b + 1))) by (apply pow2_pos; lia). nia.
Qed.

Lemma quotient_log2_lt n : 0 <= n -> a < b * 2 ^ n -> quotient_log2 a b < n.
Proof.
  intros Hn Hlt.
  destruct (Z_lt_ge_dec (quotient_log2 a b) n) as [|Hge]; [assumption|exfalso].
  pose proof quotient_log2_lower as Hlo.
  apply le_scaled_true in Hlo.
  destruct Hlo as [[H0 Hle]|[H0 Hle]]; [|lia].
  pose proof (pow2_mono n (quotient_log2 a b) ltac:(lia)). nia.
Qed.

End QuotientLog2.

(** [round_half_even] stays within one of the floor. *)
Lemma round_half_even_bounds n d :
  n / d <= round_half_even n d <= n / d + 1.
Proof.
  unfold round_half_even.
  destruct (2 * (n mod d) ?= d); [destruct (Z.even (n / d))| |]; lia.
Qed.

(** Below the half, [round_half_even] is the floor. *)
Lemma round_half_even_floor n d :
  2 * (n mod d) < d -> round_half_even n d = n / d.
Proof.
  intros H. unfold round_half_even.
  apply Z.compare_lt_iff in H. rewrite H. reflexivity.
Qed.

(** From the half on, an odd floor is rounded up. *)
Lemma round_half_even_up n d :
  d <= 2 * (n mod d) -> Z.even (n / d) = false -> round_half_even n d = n / d + 1.
Proof.
  intros H Hodd. unfold round_half_even.
  destruct (Z.compare_spec (2 * (n mod d)) d); try lia.
  rewrite Hodd. reflexivity.
Qed.

Lemma no_overflow a :
  0 < a -> a < overflow_bound ->
  let e := Z.max (quotient_log2 a 20 - 52) (-1074) in
  (0 <=? e) && (2 ^ 1024 <=? quotient_mantissa a 20 e * 2 ^ e) = false.
Proof.
  intros Ha Hlt e.
  destruct (Z.leb_spec 0 e) as [He|He]; [|reflexivity]. cbn [andb].
  apply Z.leb_gt.
  assert (e = quotient_log2 a 20 - 52) as HeL by lia.
  pose proof (quotient_log2_lower a 20 Ha ltac:(lia)) as Hlo.
  pose proof (quotient_log2_upper a 20 Ha ltac:(lia)) as Hup.
  apply le_scaled_true in Hlo. apply le_scaled_false in Hup.
  destruct Hlo as [[_ Hlo]|[? _]]; [|lia].
  destruct Hup as [[_ Hup]|[? _]]; [|lia].
  assert (quotient_log2 a 20 < 1024) as HL.
  { apply quotient_log2_lt; try lia. unfold overflow_bound in Hlt. lia. }
  replace (quotient_log2 a 20 + 1) with (e + 53) in Hup by lia.
  rewrite pow2_split in Hup by lia.
  unfold quotient_mantissa. destruct (Z.leb_spec 0 e); [|lia].
  pose proof (pow2_pos e He) as Hp.
  set (d := 20 * 2 ^ e) in *.
  assert (0 < d) as Hd by lia.
  assert (a / d < 2 ^ 53) as Hq.
  { apply Z.div_lt_upper_bound; [lia|]. unfold d. lia. }
  pose proof (round_half_even_bounds a d) as Hb.
  destruct (Z_le_gt_dec e 970) as [Hsmall|Hbig].
  - pose proof (pow2_mono e 970 ltac:(lia)) as Hm.
    assert (2 ^ 1024 = 2 ^ 53 * 2 ^ 971 ) as -> by reflexivity.
    assert (2 ^ 971 = 2 * 2 ^ 970) as -> by reflexivity.
    nia.
  - assert (e = 971) as He971 by lia.
    pose proof (Z.div_mod a d ltac:(lia)) as Hdm.
    pose proof (Z.mod_pos_bound a d Hd) as Hr.
    destruct (Z_le_gt_dec (a / d) (2 ^ 53 - 2)) as [Hq2|Hq2].
    + assert (2 ^ 1024 = 2 ^ 53 * 2 ^ e) as -> by (rewrite He971; reflexivity).
      nia.
    + assert (a / d = 2 ^ 53 - 1) as Hqe by lia.
      rewrite round_half_even_floor.
      * rewrite Hqe. assert (2 ^ 1024 = 2 ^ 53 * 2 ^ e) as -> by (rewrite He971; reflexivity). nia.
      * unfold overflow_bound in Hlt. rewrite Hqe in Hdm.
        assert (d = 20 * 2 ^ 971) as Hd971 by (unfold d; rewrite He971; reflexivity).
        assert (2 ^ 1024 = 2 ^ 53 * 2 ^ 971) as Hx by reflexivity.
        assert (2 ^ 971 = 2 * 2 ^ 970) as Hy by reflexivity.
        lia.
Qed.

Lemma overflow a :
  overflow_bound <= a ->
  let e := Z.max (quotient_log2 a 20 - 52) (-1074) in
  (0 <=? e) && (2 ^ 1024 <=? quotient_mantissa a 20 e * 2 ^ e) = true.
Proof.
  intros Hge e.
  assert (2 ^ 1024 = 2 ^ 53 * 2 ^ 971) as Hx by reflexivity.
  assert (2 ^ 971 = 2 * 2 ^ 970) as Hy by reflexivity.
  assert (2 ^ 1023 = 2 ^ 52 * 2 ^ 971) as Hz by reflexivity.
  assert (2 ^ 53 = 2 * 2 ^ 52) as Hw by reflexivity.
  pose proof (pow2_pos 970 ltac:(lia)) as H970.
  pose proof (pow2_pos 52 ltac:(lia)) as H52.
  assert (0 < a) as Ha by (unfold overflow_bound in Hge; nia).
  assert (1023 <= quotient_log2 a 20) as HL.
  { apply quotient_log2_ge; try lia. unfold overflow_bound in Hge. nia. }
  assert (e = quotient_log2 a 20 - 52) as HeL by lia.
  destruct (Z.leb_spec 0 e) as [He|He]; [|lia]. cbn [andb].
  apply Z.leb_le.
  pose proof (quotient_log2_lower a 20 Ha ltac:(lia)) as Hlo.
  apply le_scaled_true in Hlo.
  destruct Hlo as [[_ Hlo]|[? _]]; [|lia].
  replace (quotient_log2 a 20) with (e + 52) in Hlo by lia.
  rewrite pow2_split in Hlo by lia.
  unfold quotient_mantissa. destruct (Z.leb_spec 0 e); [|lia].
  pose proof (pow2_pos e He) as Hp.
  set (d := 20 * 2 ^ e) in *.
  assert (0 < d) as Hd by lia.
  assert (2 ^ 52 <= a / d) as Hq.
  { apply Z.div_le_lower_bound; [lia|]. unfold d. lia. }
  pose proof (round_half_even_bounds a d) as Hb.
  destruct (Z_le_gt_dec 972 e) as [Hbig|Hsmall].
  - pose proof (pow2_mono 972 e ltac:(lia)) as Hm.
    assert (2 ^ 972 = 2 * 2 ^ 971) as Hv by reflexivity.
    nia.
  - assert (e = 971) as He971 by lia.
    assert (d = 20 * 2 ^ 971) as Hd971 by (unfold d; rewrite He971; reflexivity).
    pose proof (Z.div_mod a d ltac:(lia)) as Hdm.
    pose proof (Z.mod_pos_bound a d Hd) as Hr.
    rewrite He971.
    destruct (Z_le_gt_dec (2 ^ 53) (a / d)) as [Hq2|Hq2]; [nia|].
    unfold overflow_bound in Hge.
    assert (a / d = 2 ^ 53 - 1) as Hqe by nia.
    rewrite round_half_even_up.
    + rewrite Hqe. lia.
    + rewrite Hqe in Hdm. lia.
    + rewrite Hqe. reflexivity.
Qed.

(** The quotient of a large difference is far outside the engine's
    range, on the side of its sign. *)
Lemma int_quotient_large x :
  220 <= Z.abs x -> Z.abs x < overflow_bound ->
  exists f r, int_true_divide x 20 = Ok f /\ int_of_float f = Ok r /\
              if x <? 0 then r <= -11 else 11 <= r.
Proof.
  intros Hbig Hlt.
  assert (0 < Z.abs x) as Ha by lia.
  unfold int_true_divide.
  replace (20 =? 0) with false by reflexivity.
  replace (x =? 0) with false by (symmetry; apply Z.eqb_neq; lia).
  replace (Z.abs 20) with 20 by reflexivity.
  replace (20 <? 0) with false by reflexivity. rewrite xorb_false_r.
  cbv zeta. rewrite (no_overflow (Z.abs x) Ha Hlt).
  set (a := Z.abs x) in *.
  assert (3 <= quotient_log2 a 20) as HL.
  { apply quotient_log2_ge; lia. }
  set (e := Z.max (quotient_log2 a 20 - 52) (-1074)).
  assert (e = quotient_log2 a 20 - 52) as HeL by lia.
  pose proof (quotient_log2_lower a 20 Ha ltac:(lia)) as Hlo.
  apply le_scaled_true in Hlo.
  destruct Hlo as [[_ Hlo]|[? _]]; [|lia].
  assert (exists n, 11 <= n /\
            forall s, int_of_float
              (if quotient_mantissa a 20 e =? 0 then S754_zero s
               else if quotient_mantissa a 20 e =? 2 ^ 53
                    then S754_finite s (Z.to_pos (2 ^ 52)) (e + 1)
                    else S754_finite s (Z.to_pos (quotient_mantissa a 20 e)) e)
              = Ok (if s then - n else n)) as (n & Hn & Hint).
  { unfold quotient_mantissa.
    destruct (Z.leb_spec 0 e) as [He|He].
    - (* the float is an integer of at least 2^52 *)
      pose proof (pow2_pos e He) as Hp.
      replace (quotient_log2 a 20) with (e + 52) in Hlo by lia.
      rewrite pow2_split in Hlo by lia.
      assert (2 ^ 52 <= a / (20 * 2 ^ e)) as Hq.
      { apply Z.div_le_lower_bound; lia. }
      pose proof (round_half_even_bounds a (20 * 2 ^ e)) as Hb.
      set (m := round_half_even a (20 * 2 ^ e)) in *.
      assert (2 ^ 52 = 4503599627370496) as H52 by reflexivity.
      destruct (Z.eqb_spec m 0); [lia|].
      destruct (Z.eqb_spec m (2 ^ 53)).
      + exists (2 ^ 52 * 2 ^ (e + 1)). split.
        * pose proof (pow2_pos (e + 1) ltac:(lia)). nia.
        * intros s. cbn [int_of_float].
          destruct (Z.leb_spec 0 (e + 1)); [|lia]. reflexivity.
      + exists (m * 2 ^ e). split; [nia|].
        intros s. cbn [int_of_float].
        destruct (Z.leb_spec 0 e); [|lia].
        rewrite Z2Pos.id by lia. reflexivity.
    - (* the float has a fraction: its integer part is at least 11 *)
      assert (0 < 2 ^ (- e)) as Hp by (apply pow2_pos; lia).
      assert (11 * 2 ^ (- e) <= a * 2 ^ (- e) / 20) as Hq.
      { apply Z.div_le_lower_bound; nia. }
      pose proof (round_half_even_bounds (a * 2 ^ (- e)) 20) as Hb.
      set (m := round_half_even (a * 2 ^ (- e)) 20) in *.
      destruct (Z.eqb_spec m 0); [lia|].
      destruct (Z.eqb_spec m (2 ^ 53)) as [Hm|Hm].
      + exists (if 0 <=? e + 1 then 2 ^ 52 * 2 ^ (e + 1) else 2 ^ 52 / 2 ^ (- (e + 1))).
        split.
        * destruct (Z.leb_spec 0 (e + 1)).
          -- pose proof (pow2_pos (e + 1) ltac:(lia)).
             assert (2 ^ 52 = 4503599627370496) as H52 by reflexivity. nia.
          -- apply Z.div_le_lower_bound; [apply pow2_pos; lia|].
             assert (2 ^ (- (e + 1)) <= 2 ^ 48) by (apply pow2_mono; lia).
             assert (2 ^ 52 = 16 * 2 ^ 48) as -> by reflexivity. lia.
        * intros s. reflexivity.
      + exists (m / 2 ^ (- e)). split.
        * apply Z.div_le_lower_bound; lia.
        * intros s. cbn [int_of_float].
          destruct (Z.leb_spec 0 e); [lia|].
          rewrite Z2Pos.id by lia. reflexivity. }
  specialize (Hint (x <? 0)).
  destruct (quotient_mantissa a 20 e =? 0);
    [|destruct (quotient_mantissa a 20 e =? 2 ^ 53)];
    (eexists _, _; split; [reflexivity|]; split; [apply Hint|];
     destruct (x <? 0); lia).
Qed.

Lemma truncates_near_baseline x :
  Z.abs x < 220 -> rate_to_sapi (VInt (200 + x)) = Ok (Spec.clamp (Z.quot x 20) (-10) 10).
Proof.
  intros Hx.
  assert (forallb truncates_at (seqZ (-219) 439) = true) as Hall
    by (vm_compute; reflexivity).
  rewrite forallb_forall in Hall.
  specialize (Hall x).
  unfold truncates_at in Hall.
  destruct (rate_to_sapi (VInt (200 + x))) as [r|e].
  - f_equal. apply Z.eqb_eq, Hall, list_elem_of_In, elem_of_seqZ. lia.
  - discriminate Hall. apply list_elem_of_In, elem_of_seqZ. lia.
Qed.

(** Far from the baseline the result is the end of the range on the
    side of the difference. *)
Lemma rate_to_sapi_far (wpm : Z) :
  220 <= Z.abs (wpm - 200) -> Z.abs (wpm - 200) < overflow_bound ->
  rate_to_sapi (VInt wpm) = Ok (if wpm - 200 <? 0 then -10 else 10).
Proof.
  intros Hbig Hdom.
  destruct (int_quotient_large (wpm - 200) Hbig Hdom) as (f & r & Hf & Hr & Hside).
  unfold rate_to_sapi, diff_over_20. rewrite Hf, Hr. f_equal.
  destruct (wpm - 200 <? 0); lia.
Qed.

(** ** The rate normalizer *)

(** The model of [/] agrees with binary64 division where both operands
    are binary64 values. *)
Example int_true_divide_19 : int_true_divide 19 20 = Ok (Prim2SF (19 / 20)%float).
Proof. vm_compute. reflexivity. Qed.

Example int_true_divide_minus_200 :
  int_true_divide (-200) 20 = Ok (Prim2SF (-200 / 20)%float).
Proof. vm_compute. reflexivity. Qed.

Example int_true_divide_large :
  int_true_divide 12345678912345 20 = Ok (Prim2SF (12345678912345 / 20)%float).
Proof. vm_compute. reflexivity. Qed.

(** A [float] rate goes through binary64 arithmetic, and a rate of
    another type raises. *)
Example rate_to_sapi_float : rate_to_sapi (VFloat 300.5%float) = Ok 5.
Proof. vm_compute. reflexivity. Qed.

Example rate_to_sapi_str : rate_to_sapi (VStr "fast") = Raise TypeError.
Proof. reflexivity. Qed.

(** Whatever the argument, a rate that is returned is in the engine's
    range. *)
Lemma rate_to_sapi_range (rate_wpm : value) (r : Z) :
  rate_to_sapi rate_wpm = Ok r -> -10 <= r <= 10.
Proof.
  unfold rate_to_sapi.
  destruct (diff_over_20 rate_wpm) as [q|]; [|discriminate].
  destruct (int_of_float q) as [n|]; [|discriminate].
  intros [= <-]. lia.
Qed.

(** X1: below the bound [rate_to_sapi] returns, and is monotone: a
    higher rate in words per minute never gives a lower engine rate. *)
Lemma rate_to_sapi_monotone (wpm1 wpm2 : Z) :
  wpm1 <= wpm2 ->
  Z.abs (wpm1 - 200) < overflow_bound -> Z.abs (wpm2 - 200) < overflow_bound ->
  exists r1 r2, rate_to_sapi (VInt wpm1) = Ok r1 /\
                rate_to_sapi (VInt wpm2) = Ok r2 /\ r1 <= r2.
Proof.
  intros Hle D1 D2.
  assert (forall wpm, Z.abs (wpm - 200) < overflow_bound ->
                      exists r, rate_to_sapi (VInt wpm) = Ok r) as Hret.
  { intros wpm D.
    destruct (Z_lt_ge_dec (Z.abs (wpm - 200)) 220).
    - replace wpm with (200 + (wpm - 200)) by lia.
      rewrite truncates_near_baseline by assumption. eauto.
    - rewrite rate_to_sapi_far by lia. eauto. }
  destruct (Hret wpm1 D1) as [r1 H1], (Hret wpm2 D2) as [r2 H2].
  exists r1, r2. split; [assumption|]. split; [assumption|].
  pose proof (rate_to_sapi_range _ _ H1). pose proof (rate_to_sapi_range _ _ H2).
  destruct (Z_le_gt_dec 220 (wpm2 - 200)) as [Hhigh|Hhigh].
  { rewrite rate_to_sapi_far in H2 by lia.
    destruct (Z.ltb_spec (wpm2 - 200) 0); [lia|]. injection H2 as <-. lia. }
  destruct (Z_le_gt_dec (wpm1 - 200) (-220)) as [Hlow|Hlow].
  { rewrite rate_to_sapi_far in H1 by lia.
    destruct (Z.ltb_spec (wpm1 - 200) 0); [|lia]. injection H1 as <-. lia. }
  replace wpm1 with (200 + (wpm1 - 200)) in H1 by lia.
  replace wpm2 with (200 + (wpm2 - 200)) in H2 by lia.
  rewrite truncates_near_baseline in H1, H2 by lia.
  injection H1 as <-. injection H2 as <-.
  assert (Z.quot (wpm1 - 200) 20 <= Z.quot (wpm2 - 200) 20)
    by (apply Z.quot_le_mono; lia).
  unfold Spec.clamp. lia.
Qed.

Lemma rate_to_sapi_values :
  rate_to_sapi (VInt 200) = Ok 0 /\ rate_to_sapi (VInt 220) = Ok 1 /\
  rate_to_sapi (VInt 0) = Ok (-10) /\ rate_to_sapi (VInt 10000) = Ok 10.
Proof. repeat split; vm_compute; reflexivity. Qed.

(** X2: each whole step of 20 wpm from the baseline is one engine unit,
    up to ten steps either way. *)
Lemma rate_to_sapi_steps (k : Z) :
  -10 <= k <= 10 -> rate_to_sapi (VInt (200 + 20 * k)) = Ok k.
Proof.
  intros Hk. rewrite truncates_near_baseline by lia.
  rewrite Z.mul_comm, Z.quot_mul by lia. unfold Spec.clamp. f_equal. lia.
Qed.

(** C3, as the specification states it, fails: 19 wpm above the baseline
    is 0.95 of a step, which rounds to 1, and the program returns 0. *)
Lemma rate_to_sapi_219_not_rounded :
  rate_to_sapi (VInt 219) <> Ok (Spec.NormalizeRate 219).
Proof. vm_compute. discriminate. Qed.

(** C3, amended: for every integer [wpm] whose difference from the
    baseline is below [overflow_bound] in absolute value, the rate
    normalizer returns the quotient [(wpm - 200) / 20] truncated toward
    zero and clamped to [-10, 10]. *)
Theorem rate_to_sapi_truncates (wpm : Z) :
  Z.abs (wpm - 200) < overflow_bound ->
  rate_to_sapi (VInt wpm) = Ok (Spec.clamp (Z.quot (wpm - 200) 20) (-10) 10).
Proof.
  intros Hdom.
  destruct (Z_lt_ge_dec (Z.abs (wpm - 200)) 220) as [Hsmall|Hbig].
  - replace wpm with (200 + (wpm - 200)) at 1 by lia.
    apply truncates_near_baseline, Hsmall.
  - rewrite rate_to_sapi_far by lia. f_equal. unfold Spec.clamp.
    destruct (Z.ltb_spec (wpm - 200) 0) as [Hneg|Hpos].
    + assert (Z.quot (wpm - 200) 20 <= -11); [|lia].
      replace (wpm - 200) with (- (200 - wpm)) by lia.
      rewrite Z.quot_opp_l by lia.
      assert (11 <= Z.quot (200 - wpm) 20); [|lia].
      apply Z.quot_le_lower_bound; lia.
    + assert (11 <= Z.quot (wpm - 200) 20); [|lia].
      apply Z.quot_le_lower_bound; lia.
Qed.

Lemma rate_to_sapi_truncates_witness :
  Z.abs (219 - 200) < overflow_bound /\ rate_to_sapi (VInt 219) = Ok 0.
Proof.
  split; [reflexivity|]. apply (rate_to_sapi_truncates 219). reflexivity.
Defined.

(** C4: the rate normalizer is to return a value in [-10, 10] for every
    integer, clamping silently instead of raising.  From [overflow_bound]
    on, the program raises [OverflowError]: the true division overflows
    before the clamp is reached. *)
Theorem rate_to_sapi_overflows (wpm : Z) :
  overflow_bound <= Z.abs (wpm - 200) ->
  rate_to_sapi (VInt wpm) = Raise OverflowError.
Proof.
  intros Hbig.
  assert (0 < overflow_bound) as Hpos by reflexivity.
  unfold rate_to_sapi, diff_over_20, int_true_divide.
  replace (20 =? 0) with false by reflexivity.
  replace (wpm - 200 =? 0) with false by (symmetry; apply Z.eqb_neq; lia).
  replace (Z.abs 20) with 20 by reflexivity.
  cbv zeta. rewrite (overflow _ Hbig). reflexivity.
Qed.

Lemma rate_to_sapi_overflows_witness :
  overflow_bound <= Z.abs (10 ^ 400 - 200) /\
  rate_to_sapi (VInt (10 ^ 400)) = Raise OverflowError.
Proof.
  assert (overflow_bound <= Z.abs (10 ^ 400 - 200)) as H
    by (vm_compute; discriminate).
  split; [exact H|]. exact (rate_to_sapi_overflows (10 ^ 400) H).
Defined.

(** ** Voice selection *)

Lemma VOICE_MAP_key (v : Spec.VoiceIdentity) :
  VOICE_MAP !! Spec.key v = Some (Spec.display_name v).
Proof. destruct v; vm_compute; reflexivity. Qed.

(** Whatever the arguments, a voice that is chosen is one of the six. *)
Lemma choose_voice_key (language gender : value) (chosen : string) :
  choose_voice language gender = Ok chosen -> exists v, chosen = Spec.key v.
Proof.
  unfold choose_voice, gender_is.
  destruct (str_lower language) as [lang|]; [|discriminate].
  destruct (str_lower gender) as [g|];
    [|destruct (startswith lang "german"); discriminate].
  destruct (startswith lang "german");
    destruct (bool_decide (g = "male")), (bool_decide (g = "female"));
    cbn [if_else]; intros [= <-];
    first [ by exists Spec.EN_NEUTRAL | by exists Spec.EN_FEMALE
          | by exists Spec.EN_MALE | by exists Spec.DE_NEUTRAL
          | by exists Spec.DE_FEMALE | by exists Spec.DE_MALE ].
Qed.

Lemma choose_voice_strings (language gender : string) :
  choose_voice (VStr language) (VStr gender)
  = Ok (Spec.key (Spec.Resolve language gender)).
Proof.
  unfold choose_voice, gender_is, Spec.Resolve, Spec.language_axis, Spec.gender_axis.
  cbn [str_lower if_else].
  destruct (startswith (lower language) "german");
    destruct (decide (lower gender = "male")) as [Hm|Hm];
    try (rewrite bool_decide_eq_true_2 by exact Hm; reflexivity);
    rewrite (bool_decide_eq_false_2 _ Hm); cbn [if_else];
    destruct (decide (lower gender = "female")) as [Hf|Hf];
    try (rewrite bool_decide_eq_true_2 by exact Hf; reflexivity);
    rewrite (bool_decide_eq_false_2 _ Hf); reflexivity.
Qed.

Lemma select_voice_strings (language gender : string) (s : system) :
  let id := Spec.Resolve language gender in
  select_voice (VStr language) (VStr gender) s =
  match first_match (Spec.display_name id) (GetVoices s) with
  | Some v =>
      (Ok (Spec.key id, Spec.display_name id),
       push_line (PrintSelected (Spec.key id) (Spec.display_name id))
         (push_call (SetVoice v) s))
  | None =>
      (Ok (Spec.key id, "Default system voice"%string),
       push_line (PrintWarning (Spec.display_name id)) s)
  end.
Proof.
  intros id. unfold select_voice, bind, lift, get_voices.
  rewrite choose_voice_strings. fold id. rewrite VOICE_MAP_key.
  destruct (first_match (Spec.display_name id) (GetVoices s)); reflexivity.
Qed.

(** ** The thread body *)

Lemma run_effect (w : worker) (s : system) :
  exists tail,
    calls (snd (run w s))
    = calls s ++ SetVolume (Z.max 0 (Z.min 100 (w_volume w))) :: tail /\
    thread_tail w tail /\
    threads (snd (run w s)) = threads s /\
    GetVoices (snd (run w s)) = GetVoices s.
Proof.
  unfold run, select_voice, bind, lift, engine_call, print, get_voices, ret, thread_tail.
  destruct (rate_to_sapi (w_rate w)) as [r|e]; cbn.
  2: { exists []. auto. }
  destruct (choose_voice (w_language w) (w_gender w)) as [chosen|e] eqn:Hc; cbn.
  2: { exists [SetRate r]. rewrite <- ?app_assoc. eauto 10. }
  destruct (choose_voice_key _ _ _ Hc) as [v ->].
  rewrite VOICE_MAP_key; cbn. unfold first_match.
  destruct (find (matches (Spec.display_name v)) (GetVoices s)) as [voice|]; cbn.
  - exists [SetRate r; SetVoice voice; Speak (w_text w) 1].
    rewrite <- ?app_assoc. eauto 10.
  - exists [SetRate r; Speak (w_text w) 1].
    rewrite <- ?app_assoc. eauto 10.
Qed.

Lemma run_strings (text : value) (language gender : string) (rate : value)
    (volume r : Z) (s : system) :
  rate_to_sapi rate = Ok r ->
  let id := Spec.Resolve language gender in
  run {| w_text := text; w_language := VStr language; w_gender := VStr gender;
         w_rate := rate; w_volume := volume |} s =
  match first_match (Spec.display_name id) (GetVoices s) with
  | Some v =>
      (Ok tt,
       push_call (Speak text 1)
         (push_line (PrintSelected (Spec.key id) (Spec.display_name id))
            (push_call (SetVoice v)
               (push_call (SetRate r)
                  (push_call (SetVolume (Z.max 0 (Z.min 100 volume))) s)))))
  | None =>
      (Ok tt,
       push_call (Speak text 1)
         (push_line (PrintWarning (Spec.display_name id))
            (push_call (SetRate r)
               (push_call (SetVolume (Z.max 0 (Z.min 100 volume))) s))))
  end.
Proof.
  intros Hr id. unfold run, bind at 1 2 3 4, lift, engine_call at 1 2.
  cbn [w_rate w_volume w_language w_gender w_text]. rewrite Hr.
  rewrite select_voice_strings. fold id. cbn [GetVoices push_call].
  destruct (first_match (Spec.display_name id) (GetVoices s)); reflexivity.
Qed.

(** ** The message handler *)

(** Opens the handler down to the lookups in the message. *)
Ltac unfold_handler := unfold process_message, handle, bind, lift, dict_get.

(** [process_message] returns normally on every input. *)
Lemma process_message_returns (loaded : result value) (s : system) :
  exists s', process_message loaded s = (Ok tt, s').
Proof.
  unfold process_message, print.
  destruct (handle loaded s) as [[[]|e] s']; eauto.
Qed.

Lemma handle_say (d voice_info : gmap string value) (t : string) (s : system) :
  default (VStr EmptyString) (d !! "Type") = VStr t -> lower t = "say"%string ->
  default (VDict ∅) (d !! "Voice") = VDict voice_info ->
  process_message (Ok (VDict d)) s = (Ok tt, said d voice_info s).
Proof.
  intros Ht Hl Hv.
  unfold_handler.
  rewrite Ht. cbn [str_lower]. rewrite Hl.
  destruct (decide ("say"%string = "say"%string)); [|congruence].
  rewrite Hv. reflexivity.
Qed.

Lemma handle_cancel (d : gmap string value) (t : string) (s : system) :
  default (VStr EmptyString) (d !! "Type") = VStr t -> lower t = "cancel"%string ->
  process_message (Ok (VDict d)) s = (Ok tt, push_call purge (push_line PrintCancel s)).
Proof.
  intros Ht Hl.
  unfold_handler.
  rewrite Ht. cbn [str_lower]. rewrite Hl.
  destruct (decide ("cancel"%string = "say"%string)); [discriminate|].
  destruct (decide ("cancel"%string = "cancel"%string)); [|congruence].
  reflexivity.
Qed.

Lemma process_message_effect (loaded : result value) (s : system) :
  let s' := snd (process_message loaded s) in
  GetVoices s' = GetVoices s /\
  ((calls s' = calls s /\ threads s' = threads s) \/
   (calls s' = calls s ++ [purge] /\ threads s' = threads s) \/
   (calls s' = calls s ++ [purge] /\
    exists w, threads s' = threads s ++ [w] /\ w_volume w = 100)).
Proof.
  destruct loaded as [data|e]; [|cbn; auto].
  destruct data as [| | | | | |d]; try solve [cbn; auto].
  destruct (default (VStr EmptyString) (d !! "Type")) as [| | | |t| |] eqn:Ht;
    try solve [unfold_handler;
               rewrite Ht; cbn; auto].
  destruct (decide (lower t = "say"%string)) as [Hs|Hs].
  - destruct (default (VDict ∅) (d !! "Voice")) as [| | | | | |vi] eqn:Hv;
      try solve [unfold_handler;
                 rewrite Ht; cbn [str_lower]; rewrite Hs;
                 destruct (decide ("say"%string = "say"%string)); [|congruence];
                 rewrite Hv; cbn; auto].
    rewrite (handle_say d vi t s Ht Hs Hv). cbn. split; [reflexivity|].
    right. right. split; [reflexivity|]. eexists. split; reflexivity.
  - destruct (decide (lower t = "cancel"%string)) as [Hc|Hc].
    + rewrite (handle_cancel d t s Ht Hc). cbn. auto.
    + unfold_handler.
      rewrite Ht. cbn [str_lower].
      destruct (decide (lower t = "say"%string)); [contradiction|].
      destruct (decide (lower t = "cancel"%string)); [contradiction|].
      cbn. auto.
Qed.

(** ** Voice resolution *)

(** C5: voice resolution is total on strings.  For every [language] and
    [genderHint], [select_voice] raises nothing and returns one of the
    six identities, the one the specification's rule picks: the German
    axis when the lowercased language starts with "german", English
    otherwise; Male or Female when the lowercased hint is exactly "male"
    or "female", Neutral otherwise. *)
Theorem select_voice_total (language genderHint : string) (s : system) :
  exists displayName s',
    select_voice (VStr language) (VStr genderHint) s
    = (Ok (Spec.key (Spec.Resolve language genderHint), displayName), s').
Proof.
  pose proof (select_voice_strings language genderHint s) as H. cbv zeta in H.
  destruct (first_match _ _); eauto.
Qed.

Lemma first_match_none (voice_name : string) (vs : list sapi_voice) :
  Forall (fun v => contains (lower (GetDescription v)) (lower voice_name) = false) vs ->
  first_match voice_name vs = None.
Proof.
  unfold first_match.
  induction 1 as [|v vs Hv _ IH]; [reflexivity|].
  cbn [find]. unfold matches at 1. rewrite Hv. exact IH.
Qed.

(** C6: when no enumerated voice has a description containing the
    display name, compared in lower case, [select_voice] raises nothing:
    it returns the chosen identity with the name "Default system voice",
    prints the warning and sends the engine no voice; the thread then
    goes on to its speak call. *)
Theorem select_voice_fallback (language gender : string) (s : system) :
  Forall (fun v => contains (lower (GetDescription v))
                     (lower (Spec.display_name (Spec.Resolve language gender)))
                   = false) (GetVoices s) ->
  select_voice (VStr language) (VStr gender) s
  = (Ok (Spec.key (Spec.Resolve language gender), "Default system voice"%string),
     push_line (PrintWarning (Spec.display_name (Spec.Resolve language gender))) s) /\
  forall (text rate : value) (volume r : Z),
    rate_to_sapi rate = Ok r ->
    run {| w_text := text; w_language := VStr language; w_gender := VStr gender;
           w_rate := rate; w_volume := volume |} s
    = (Ok tt,
       push_call (Speak text 1)
         (push_line (PrintWarning (Spec.display_name (Spec.Resolve language gender)))
            (push_call (SetRate r)
               (push_call (SetVolume (Z.max 0 (Z.min 100 volume))) s)))).
Proof.
  intros Hnone. apply first_match_none in Hnone. split.
  - pose proof (select_voice_strings language gender s) as H. cbv zeta in H.
    rewrite Hnone in H. exact H.
  - intros text rate volume r Hr.
    pose proof (run_strings text language gender rate volume r s Hr) as H.
    cbv zeta in H. rewrite Hnone in H. exact H.
Qed.

Lemma select_voice_fallback_witness :
  Forall (fun v => contains (lower (GetDescription v))
                     (lower (Spec.display_name (Spec.Resolve "English" "Male")))
                   = false) (GetVoices (boot [zira])) /\
  select_voice (VStr "English") (VStr "Male") (boot [zira])
  = (Ok ("EN_MALE"%string, "Default system voice"%string),
     push_line (PrintWarning "Microsoft Richard") (boot [zira])).
Proof.
  assert (Forall (fun v => contains (lower (GetDescription v))
                     (lower (Spec.display_name (Spec.Resolve "English" "Male")))
                   = false) (GetVoices (boot [zira]))) as H
    by (repeat constructor).
  split; [exact H|].
  exact (proj1 (select_voice_fallback "English" "Male" (boot [zira]) H)).
Defined.

(** ** Scenario A *)

Lemma scenario_A_handled (s : system) :
  process_message (Ok scenario_A) s
  = (Ok tt,
     push_thread {| w_text := VStr "Hello"; w_language := VStr "English";
                    w_gender := VStr "Male"; w_rate := VInt 300;
                    w_volume := DEFAULT_VOLUME |}
       (push_call purge
          (push_line (PrintSay (VStr "English") (VStr "Male") (VStr "Unknown")
                        (VInt 300) (VStr "Hello")) s))).
Proof.
  vm_compute. reflexivity.
Qed.

Lemma scenario_A_calls (voices : list sapi_voice) :
  calls (exec [Receive (Ok scenario_A); Schedule 0%nat] (boot voices))
  = [purge; SetVolume 100; SetRate 5]
    ++ match first_match EN_MALE voices with
       | Some v => [SetVoice v]
       | None => []
       end
    ++ [Speak (VStr "Hello") 1].
Proof.
  assert (rate_to_sapi (VInt 300) = Ok 5) as Hr by reflexivity.
  unfold exec. cbn [foldl step]. rewrite scenario_A_handled. cbn [snd].
  unfold run_thread.
  cbn [threads push_thread push_call push_line boot app lookup list_lookup].
  cbn [GetVoices calls stdout delete list_delete].
  rewrite (run_strings _ "English" "Male" _ _ 5 _ Hr).
  cbn [GetVoices push_thread push_call push_line boot].
  change (Spec.display_name (Spec.Resolve "English" "Male")) with EN_MALE.
  destruct (first_match EN_MALE voices); reflexivity.
Qed.

(** C2, amended: the message of Scenario A resolves the identity
    EN_MALE and normalizes the rate to 5; once its thread has run the
    engine has received the purge, volume 100, rate 5, then the first
    enumerated voice whose description contains "Microsoft Richard" if
    there is one, and no voice otherwise, then the asynchronous speak
    call for "Hello". *)
Theorem scenario_A_engine_calls (voices : list sapi_voice) :
  choose_voice (VStr "English") (VStr "Male") = Ok "EN_MALE"%string /\
  VOICE_MAP !! "EN_MALE" = Some EN_MALE /\
  rate_to_sapi (VInt 300) = Ok 5 /\
  calls (exec [Receive (Ok scenario_A); Schedule 0%nat] (boot voices))
  = [purge; SetVolume 100; SetRate 5]
    ++ match first_match EN_MALE voices with
       | Some v => [SetVoice v]
       | None => []
       end
    ++ [Speak (VStr "Hello") 1].
Proof.
  split; [reflexivity|]. split; [reflexivity|]. split; [reflexivity|].
  apply scenario_A_calls.
Qed.

(** C2, as the specification states it, fails on an engine that does not
    offer the voice: no voice is set. *)
Lemma scenario_A_without_the_voice :
  ~ exists v, calls (exec [Receive (Ok scenario_A); Schedule 0%nat] (boot []))
              = [purge; SetVolume 100; SetRate 5; SetVoice v; Speak (VStr "Hello") 1].
Proof.
  intros [v H]. rewrite scenario_A_calls in H. discriminate H.
Qed.

(** ** Malformed input *)

(** C7, amended: the handler returns normally on every input.  A text
    that [json.loads] rejects is printed as a message error and
    discarded, and an empty object is ignored: neither reaches the
    engine or starts a thread.  An object with [Type] "say" and no
    [Payload] is not discarded: it is handled as a Say of the empty text
    with the default language, gender and rate, so the engine is purged
    and a thread is started. *)
Theorem malformed_message_resilience (s : system) (e : exn) :
  (forall loaded, exists s', process_message loaded s = (Ok tt, s')) /\
  process_message (Raise e) s = (Ok tt, push_line (PrintMessageError e) s) /\
  observe (push_line (PrintMessageError e) s) = observe s /\
  process_message (Ok (VDict ∅)) s = (Ok tt, s) /\
  process_message (Ok say_without_payload) s
  = (Ok tt,
     push_thread default_worker
       (push_call purge
          (push_line (PrintSay (VStr "English") (VStr "None") (VStr "Unknown")
                        (VInt DEFAULT_RATE) (VStr EmptyString)) s))).
Proof.
  split; [intros loaded; apply process_message_returns|].
  split; [reflexivity|]. split; [reflexivity|].
  split; [destruct s; reflexivity|].
  vm_compute. reflexivity.
Qed.

(** C7, as the specification states it, fails for the object with
    [Type] "say" and no [Payload]: from the start state the engine
    receives a purge, the settings and a speak call, the session is
    [Speaking], and what can be observed has changed, also before the
    thread runs. *)
Lemma say_without_payload_is_spoken :
  let s := exec [Receive (Ok say_without_payload); Schedule 0%nat] (boot []) in
  calls s = [purge; SetVolume 100; SetRate 5; Speak (VStr EmptyString) 1] /\
  Spec.session_of (calls s) = Spec.Speaking /\
  observe s <> observe (boot []) /\
  observe (snd (process_message (Ok say_without_payload) (boot []))) <> observe (boot []).
Proof.
  cbv zeta. split; [vm_compute; reflexivity|].
  split; [vm_compute; reflexivity|].
  split; vm_compute; discriminate.
Qed.

(** ** Cancel *)

Lemma session_of_purge (cs : list call) :
  Spec.session_of (cs ++ [purge]) = Spec.Idle.
Proof. unfold Spec.session_of. rewrite foldl_app. reflexivity. Qed.

(** C8: [cancel_speech] sends the engine one purge, in every state, and
    the session is [Idle] afterwards; cancelling twice leaves the engine,
    the waiting threads and the voices as cancelling once does. *)
Theorem cancel_speech_idempotent (s : system) :
  cancel_speech s = (Ok tt, push_call purge s) /\
  Spec.session_of (calls (push_call purge s)) = Spec.Idle /\
  observe (snd ((cancel_speech ;;; cancel_speech) s)) = observe (snd (cancel_speech s)).
Proof.
  split; [reflexivity|]. split; [apply session_of_purge|].
  unfold observe, bind, cancel_speech, engine_call. cbn [snd push_call calls threads GetVoices].
  f_equal. f_equal. unfold Spec.engine_of. rewrite !foldl_app.
  cbn [foldl]. generalize (foldl Spec.engine_step
    {| Spec.Volume := None; Spec.Rate := None; Spec.Voice := None; Spec.state := Spec.Idle |}
    (calls s)).
  intros en. reflexivity.
Qed.

(** ** The Gender field *)

Lemma process_message_agree (d1 d2 : gmap string value) (s : system) :
  (forall k : string, k <> "Gender"%string -> d1 !! k = d2 !! k) ->
  process_message (Ok (VDict d1)) s = process_message (Ok (VDict d2)) s.
Proof.
  intros H. unfold_handler.
  rewrite (H "Type"%string), (H "Payload"%string), (H "Language"%string),
    (H "Voice"%string), (H "Rate"%string), (H "Speaker"%string) by discriminate.
  reflexivity.
Qed.

(** C10: two messages that differ only in the value of the top-level
    [Gender] field are handled alike: same result, same engine calls,
    same thread, same output. *)
Theorem gender_field_ignored (d : gmap string value) (g1 g2 : value) (s : system) :
  process_message (Ok (VDict (<["Gender" := g1]> d))) s
  = process_message (Ok (VDict (<["Gender" := g2]> d))) s.
Proof.
  apply process_message_agree. intros k Hk.
  rewrite !lookup_insert_ne by congruence. reflexivity.
Qed.

(** ** Volume *)

Lemma thread_tail_no_volume (w : worker) (tail : list call) :
  thread_tail w tail -> Forall (fun c => forall v, c = SetVolume v -> v = 100) tail.
Proof.
  intros [->|[r [->|[->|[v ->]]]]]; repeat constructor; discriminate.
Qed.

Lemma thread_tail_keeps_volume (w : worker) (tail : list call) (en : Spec.engine) :
  thread_tail w tail ->
  Spec.Volume (foldl Spec.engine_step en tail) = Spec.Volume en.
Proof.
  intros [->|[r [->|[->|[v ->]]]]]; reflexivity.
Qed.

Lemma volume_100_step (s : system) (ev : event) :
  volume_100 s -> volume_100 (step s ev).
Proof.
  intros [Hthreads Hcalls]. destruct ev as [loaded|i]; cbn [step].
  - destruct (process_message_effect loaded s) as [_ Heff]. cbv zeta in Heff.
    unfold volume_100.
    destruct Heff as [[-> ->]|[[-> ->]|[-> (w & -> & Hw)]]].
    + auto.
    + split; [assumption|]. apply Forall_app. split; [assumption|].
      repeat constructor. discriminate.
    + split.
      * apply Forall_app. split; [assumption|]. repeat constructor. exact Hw.
      * apply Forall_app. split; [assumption|]. repeat constructor. discriminate.
  - unfold run_thread. destruct (threads s !! i) as [w|] eqn:Hi; [|split; assumption].
    match goal with |- volume_100 (snd (run w ?s0)) =>
      destruct (run_effect w s0) as (tail & Hc & Htail & Ht & _) end.
    cbn [calls threads] in Hc, Ht.
    unfold volume_100. rewrite Hc, Ht. split.
    + apply Forall_delete, Hthreads.
    + apply Forall_app. split; [assumption|]. constructor.
      * intros v [= <-].
        rewrite Forall_lookup in Hthreads. rewrite (Hthreads i w Hi). reflexivity.
      * eapply thread_tail_no_volume, Htail.
Qed.

Lemma volume_100_exec (evs : list event) (s : system) :
  volume_100 s -> volume_100 (exec evs s).
Proof.
  unfold exec. revert s.
  induction evs as [|ev evs IH]; intros s Hs; [exact Hs|].
  cbn [foldl]. apply IH, volume_100_step, Hs.
Qed.

(** C9: after any messages and any scheduling, a thread that is waiting
    was started with volume 100, and once it has run every volume the
    engine has been sent is 100 and the engine's volume is 100. *)
Theorem say_sets_volume_100 (evs : list event) (voices : list sapi_voice)
    (i : nat) (w : worker) :
  threads (exec evs (boot voices)) !! i = Some w ->
  w_volume w = 100 /\
  Forall (fun c => forall v, c = SetVolume v -> v = 100)
    (calls (run_thread i (exec evs (boot voices)))) /\
  Spec.Volume (Spec.engine_of (calls (run_thread i (exec evs (boot voices)))))
  = Some 100.
Proof.
  intros Hi.
  assert (volume_100 (exec evs (boot voices))) as Hinv.
  { apply volume_100_exec. split; constructor. }
  pose proof (volume_100_step _ (Schedule i) Hinv) as [_ Hcalls].
  cbn [step] in Hcalls.
  destruct Hinv as [Hthreads _].
  rewrite Forall_lookup in Hthreads. pose proof (Hthreads i w Hi) as Hw.
  split; [exact Hw|]. split; [exact Hcalls|].
  unfold run_thread. rewrite Hi.
  match goal with |- context [run w ?s0] =>
    destruct (run_effect w s0) as (tail & Hc & Htail & _) end.
  rewrite Hc. cbn [calls]. rewrite Hw.
  unfold Spec.engine_of. rewrite foldl_app. cbn [foldl].
  rewrite (thread_tail_keeps_volume w tail _ Htail). reflexivity.
Qed.

Lemma say_sets_volume_100_witness :
  threads (exec [Receive (Ok (say "one"))] (boot [])) !! 0%nat
  = Some {| w_text := VStr "one"; w_language := VStr "English";
            w_gender := VStr "None"; w_rate := VInt 300; w_volume := 100 |} /\
  Spec.Volume (Spec.engine_of
                 (calls (run_thread 0 (exec [Receive (Ok (say "one"))] (boot [])))))
  = Some 100.
Proof.
  assert (threads (exec [Receive (Ok (say "one"))] (boot [])) !! 0%nat
          = Some {| w_text := VStr "one"; w_language := VStr "English";
                    w_gender := VStr "None"; w_rate := VInt 300; w_volume := 100 |})
    as H by (vm_compute; reflexivity).
  split; [exact H|].
  exact (proj2 (proj2 (say_sets_volume_100 _ _ _ _ H))).
Defined.

(** ** Purge before speak *)

Lemma speak_purges_first (text language gender rate : value) (volume : Z) (s : system) :
  speak text language gender rate volume s
  = (Ok tt,
     push_thread {| w_text := text; w_language := language; w_gender := gender;
                    w_rate := rate; w_volume := volume |} (push_call purge s)).
Proof. reflexivity. Qed.

Lemma purge_before_each_speak_app (purged : bool) (l1 l2 : list call) :
  Spec.purge_before_each_speak purged (l1 ++ l2)
  = Spec.purge_before_each_speak purged l1
    && Spec.purge_before_each_speak (foldl Spec.purged_step purged l1) l2.
Proof.
  revert purged. induction l1 as [|c l1 IH]; intros purged; [reflexivity|].
  cbn [app Spec.purge_before_each_speak foldl]. rewrite IH, andb_assoc. reflexivity.
Qed.

Lemma purge_then_thread (w : worker) (tail : list call) (purged : bool) (v : Z) :
  thread_tail w tail ->
  Spec.purge_before_each_speak purged (purge :: SetVolume v :: tail) = true.
Proof.
  intros [->|[r [->|[->|[voice ->]]]]]; reflexivity.
Qed.

Lemma quiet_in_order (loaded : result value) (s : system) :
  quiet s -> quiet (run_thread 0 (snd (process_message loaded s))).
Proof.
  intros [Hthreads Hcalls].
  destruct (process_message_effect loaded s) as [_ Heff]. cbv zeta in Heff.
  unfold run_thread.
  destruct Heff as [[Hc Ht]|[[Hc Ht]|[Hc (w & Ht & Hw)]]]; rewrite Ht, Hthreads.
  - cbn [lookup list_lookup]. split; [congruence|]. rewrite Hc. exact Hcalls.
  - cbn [lookup list_lookup]. split; [congruence|]. rewrite Hc.
    rewrite purge_before_each_speak_app, Hcalls. reflexivity.
  - cbn [app lookup list_lookup delete list_delete].
    match goal with |- quiet (snd (run w ?s0)) =>
      destruct (run_effect w s0) as (tail & Hc' & Htail & Ht' & _) end.
    cbn [calls threads] in Hc', Ht'.
    split; [exact Ht'|]. rewrite Hc', Hc, <- app_assoc.
    rewrite purge_before_each_speak_app, Hcalls.
    cbn [andb app]. apply purge_then_thread with (w := w). exact Htail.
Qed.

(** When every thread runs before the next message is handled, each
    speak call has its purge. *)
Lemma in_order_purges (msgs : list (result value)) (s : system) :
  quiet s -> quiet (exec (in_order msgs) s).
Proof.
  revert s. induction msgs as [|loaded msgs IH]; intros s Hs; [exact Hs|].
  unfold exec in *. cbn [in_order flat_map app foldl step].
  apply IH, quiet_in_order, Hs.
Qed.

(** C1: between two speak calls the engine is to receive a purge.  When
    two Say messages are handled before the thread of the first has
    taken the lock, the engine receives both purges first and then the
    two speak calls with no purge between them. *)
Theorem second_say_overtakes_first_thread :
  let s := exec [Receive (Ok (say "one")); Receive (Ok (say "two"));
                 Schedule 0%nat; Schedule 0%nat] (boot []) in
  calls s = [purge; purge;
             SetVolume 100; SetRate 5; Speak (VStr "one") 1;
             SetVolume 100; SetRate 5; Speak (VStr "two") 1] /\
  forall purged, Spec.purge_before_each_speak purged (calls s) = false.
Proof.
  cbv zeta. split; [vm_compute; reflexivity|].
  intros purged. destruct purged; vm_compute; reflexivity.
Qed.

(** * Further properties *)

(** ** The shape of [rate_to_sapi] *)

Lemma rate_to_sapi_monotone_witness :
  exists r1 r2, rate_to_sapi (VInt 150) = Ok r1 /\
                rate_to_sapi (VInt 260) = Ok r2 /\ r1 <= r2.
Proof.
  apply (rate_to_sapi_monotone 150 260); [lia|reflexivity|reflexivity].
Defined.

Lemma rate_to_sapi_steps_witness :
  -10 <= 3 <= 10 /\ rate_to_sapi (VInt (200 + 20 * 3)) = Ok 3.
Proof.
  assert (-10 <= 3 <= 10) as H by lia.
  split; [exact H|]. exact (rate_to_sapi_steps 3 H).
Defined.

(** Below the bound the result is the truncated quotient near the
    baseline and the end of the range far from it. *)
Lemma rate_to_sapi_cases (wpm : Z) :
  Z.abs (wpm - 200) < overflow_bound ->
  (Z.abs (wpm - 200) < 220 /\
   rate_to_sapi (VInt wpm) = Ok (Spec.clamp (Z.quot (wpm - 200) 20) (-10) 10)) \/
  (220 <= wpm - 200 /\ rate_to_sapi (VInt wpm) = Ok 10) \/
  (wpm - 200 <= -220 /\ rate_to_sapi (VInt wpm) = Ok (-10)).
Proof.
  intros Hdom.
  destruct (Z_lt_ge_dec (Z.abs (wpm - 200)) 220) as [Hnear|Hfar].
  - left. split; [assumption|].
    replace wpm with (200 + (wpm - 200)) at 1 by lia.
    apply truncates_near_baseline, Hnear.
  - right. rewrite rate_to_sapi_far by lia.
    destruct (Z.ltb_spec (wpm - 200) 0); [right|left]; split; (lia || reflexivity).
Qed.

Lemma quot_20_bounds (x : Z) :
  (0 <= x /\ 20 * Z.quot x 20 <= x < 20 * Z.quot x 20 + 20) \/
  (x < 0 /\ 20 * Z.quot x 20 - 20 < x <= 20 * Z.quot x 20).
Proof.
  pose proof (Z.quot_rem' x 20) as Hqr.
  destruct (Z_le_gt_dec 0 x) as [Hx|Hx].
  - assert (0 <= Z.rem x 20 < 20) by (apply Z.rem_bound_pos; lia). left. lia.
  - pose proof (Z.rem_bound_pos_neg x 20) as Hr. right. lia.
Qed.

(** X3: the dead zone.  Below the bound, the engine rate is 0 exactly for
    the rates from 181 to 219 wpm. *)
Theorem rate_to_sapi_dead_zone (wpm : Z) :
  Z.abs (wpm - 200) < overflow_bound ->
  rate_to_sapi (VInt wpm) = Ok 0 <-> 181 <= wpm <= 219.
Proof.
  intros Hdom.
  destruct (rate_to_sapi_cases wpm Hdom) as [[Hnear ->]|[[Hfar ->]|[Hfar ->]]].
  - unfold Spec.clamp. pose proof (quot_20_bounds (wpm - 200)) as Hq.
    split.
    + intros [= H0]. lia.
    + intros Hz. f_equal.
      assert (Z.quot (wpm - 200) 20 = 0) as ->; [|reflexivity].
      apply Z.quot_small_iff; lia.
  - split; [discriminate|lia].
  - split; [discriminate|lia].
Qed.

Lemma rate_to_sapi_dead_zone_witness :
  Z.abs (181 - 200) < overflow_bound /\ rate_to_sapi (VInt 181) = Ok 0.
Proof.
  assert (Z.abs (181 - 200) < overflow_bound) as H by reflexivity.
  split; [exact H|]. apply (rate_to_sapi_dead_zone 181 H). lia.
Defined.

(** X4: saturation.  Below the bound, the engine rate is 10 exactly from
    400 wpm on, and -10 exactly up to 0 wpm. *)
Theorem rate_to_sapi_saturates (wpm : Z) :
  Z.abs (wpm - 200) < overflow_bound ->
  (rate_to_sapi (VInt wpm) = Ok 10 <-> 400 <= wpm) /\
  (rate_to_sapi (VInt wpm) = Ok (-10) <-> wpm <= 0).
Proof.
  intros Hdom.
  destruct (rate_to_sapi_cases wpm Hdom) as [[Hnear ->]|[[Hfar ->]|[Hfar ->]]].
  - unfold Spec.clamp. pose proof (quot_20_bounds (wpm - 200)) as Hq.
    split; split.
    + intros [= H0]. lia.
    + intros Hz. f_equal. lia.
    + intros [= H0]. lia.
    + intros Hz. f_equal. lia.
  - split; split; first [reflexivity | discriminate | lia | intros; lia].
  - split; split; first [reflexivity | discriminate | lia | intros; lia].
Qed.

Lemma rate_to_sapi_saturates_witness :
  Z.abs (400 - 200) < overflow_bound /\ rate_to_sapi (VInt 400) = Ok 10.
Proof.
  assert (Z.abs (400 - 200) < overflow_bound) as H by reflexivity.
  split; [exact H|]. apply (proj1 (rate_to_sapi_saturates 400 H)). lia.
Defined.

(** X5: symmetry.  Below the bound, rates at the same distance on either
    side of the baseline give opposite engine rates. *)
Theorem rate_to_sapi_odd (d : Z) :
  Z.abs d < overflow_bound ->
  exists r, rate_to_sapi (VInt (200 + d)) = Ok r /\
            rate_to_sapi (VInt (200 - d)) = Ok (- r).
Proof.
  intros Hdom.
  assert (Z.abs (200 + d - 200) < overflow_bound) as H1 by (replace (200 + d - 200) with d by lia; exact Hdom).
  assert (Z.abs (200 - d - 200) < overflow_bound) as H2 by (replace (200 - d - 200) with (- d) by lia; lia).
  destruct (rate_to_sapi_cases _ H1) as [[N1 ->]|[[F1 ->]|[F1 ->]]];
    destruct (rate_to_sapi_cases _ H2) as [[N2 ->]|[[F2 ->]|[F2 ->]]];
    try lia; eexists; (split; [reflexivity|]); f_equal; try lia.
  replace (200 - d - 200) with (- (200 + d - 200)) by lia.
  rewrite Z.quot_opp_l by lia. unfold Spec.clamp. lia.
Qed.

Lemma rate_to_sapi_odd_witness :
  Z.abs 60 < overflow_bound /\
  exists r, rate_to_sapi (VInt (200 + 60)) = Ok r /\
            rate_to_sapi (VInt (200 - 60)) = Ok (- r).
Proof.
  assert (Z.abs 60 < overflow_bound) as H by reflexivity.
  split; [exact H|]. exact (rate_to_sapi_odd 60 H).
Defined.

(** ** What can go wrong in a thread *)

Lemma rate_to_sapi_errors (rate_wpm : value) (e : exn) :
  rate_to_sapi rate_wpm = Raise e ->
  e = TypeError \/ e = OverflowError \/ e = ValueError.
Proof.
  unfold rate_to_sapi.
  destruct (diff_over_20 rate_wpm) as [q|e'] eqn:Hq.
  - destruct q as [sg|sg| |sg m ex]; cbn [int_of_float]; intros [= <-]; auto.
  - intros [= <-].
    assert (forall z, int_true_divide z 20 = Raise e' -> e' = OverflowError) as Hdiv.
    { intros z. unfold int_true_divide.
      replace (20 =? 0) with false by reflexivity.
      repeat match goal with |- context [if ?c then _ else _] => destruct c end;
        intros [= <-]; reflexivity. }
    destruct rate_wpm; cbn [diff_over_20] in Hq;
      first [ injection Hq as <-; auto
            | discriminate Hq
            | apply Hdiv in Hq; auto ].
Qed.

Lemma choose_voice_errors (language gender : value) (e : exn) :
  choose_voice language gender = Raise e ->
  e = AttributeError /\ is_str language && is_str gender = false.
Proof.
  unfold choose_voice, gender_is.
  destruct language; cbn [str_lower is_str andb]; try (intros [= <-]; auto; fail).
  destruct gender; cbn [str_lower is_str andb if_else];
    destruct (startswith _ _);
    try (intros [= <-]; auto; fail).
  all: repeat match goal with |- context [bool_decide ?P] => destruct (bool_decide P) end;
    cbn [if_else]; discriminate.
Qed.

(** X6: a rate that is no number.  The thread of a Say whose rate is
    neither [int], [bool] nor [float] sets the volume and ends with
    [TypeError]: no rate, no voice, no speak call. *)
Theorem thread_without_number (w : worker) (s : system) :
  is_number (w_rate w) = false ->
  run w s = (Raise TypeError,
             push_call (SetVolume (Z.max 0 (Z.min 100 (w_volume w)))) s).
Proof.
  intros Hn. unfold run, bind, lift, engine_call.
  assert (rate_to_sapi (w_rate w) = Raise TypeError) as ->; [|reflexivity].
  destruct (w_rate w); try discriminate Hn; reflexivity.
Qed.

Lemma thread_without_number_witness :
  run {| w_text := VStr "Hello"; w_language := VStr "English";
         w_gender := VStr "None"; w_rate := VStr "fast"; w_volume := 100 |} (boot [])
  = (Raise TypeError, push_call (SetVolume 100) (boot [])).
Proof.
  apply (thread_without_number
           {| w_text := VStr "Hello"; w_language := VStr "English";
              w_gender := VStr "None"; w_rate := VStr "fast"; w_volume := 100 |}).
  reflexivity.
Defined.

(** X7: a language or gender that is no string.  The thread sets the
    volume and the rate and ends with [AttributeError]: no voice, no
    speak call, nothing printed. *)
Theorem thread_without_strings (w : worker) (r : Z) (s : system) :
  rate_to_sapi (w_rate w) = Ok r ->
  is_str (w_language w) && is_str (w_gender w) = false ->
  run w s = (Raise AttributeError,
             push_call (SetRate r)
               (push_call (SetVolume (Z.max 0 (Z.min 100 (w_volume w)))) s)).
Proof.
  intros Hr Hs. unfold run, select_voice, bind, lift, engine_call. rewrite Hr.
  destruct (choose_voice (w_language w) (w_gender w)) as [chosen|e] eqn:Hc.
  - exfalso. unfold choose_voice, gender_is in Hc.
    destruct (w_language w); try discriminate Hc.
    destruct (w_gender w); try discriminate Hs;
      cbn [str_lower if_else] in Hc; destruct (startswith _ _); discriminate Hc.
  - apply choose_voice_errors in Hc as [-> _]. reflexivity.
Qed.

Lemma thread_without_strings_witness :
  run {| w_text := VStr "Hello"; w_language := VInt 5;
         w_gender := VStr "None"; w_rate := VInt 300; w_volume := 100 |} (boot [])
  = (Raise AttributeError, push_call (SetRate 5) (push_call (SetVolume 100) (boot []))).
Proof.
  apply (thread_without_strings
           {| w_text := VStr "Hello"; w_language := VInt 5;
              w_gender := VStr "None"; w_rate := VInt 300; w_volume := 100 |} 5);
    reflexivity.
Defined.

Lemma speeches_app (l1 l2 : list call) :
  speeches (l1 ++ l2) = (speeches l1 + speeches l2)%nat.
Proof. unfold speeches. rewrite List.filter_app, length_app. reflexivity. Qed.

Lemma purges_sent_app (l1 l2 : list call) :
  purges_sent (l1 ++ l2) = (purges_sent l1 + purges_sent l2)%nat.
Proof. unfold purges_sent. rewrite List.filter_app, length_app. reflexivity. Qed.

(** X8: a thread speaks exactly when nothing raises.  A thread that
    returns has made one speak call, its last call; a thread that raises
    has made none, and what it raises is [TypeError], [OverflowError] or
    [ValueError] from the rate, or [AttributeError] from the voice. *)
Theorem thread_speaks_or_raises (w : worker) (s : system) :
  match run w s with
  | (Ok _, s') =>
      exists settings, calls s' = calls s ++ settings ++ [Speak (w_text w) 1] /\
                       speeches settings = 0%nat
  | (Raise e, s') =>
      speeches (calls s') = speeches (calls s) /\
      (e = TypeError \/ e = OverflowError \/ e = ValueError \/ e = AttributeError)
  end.
Proof.
  unfold run, select_voice, bind, lift, engine_call, print, get_voices, ret.
  destruct (rate_to_sapi (w_rate w)) as [r|e] eqn:Hr.
  2: { cbn [calls push_call]. rewrite speeches_app.
       apply rate_to_sapi_errors in Hr. cbn. split; [lia|tauto]. }
  destruct (choose_voice (w_language w) (w_gender w)) as [chosen|e] eqn:Hc.
  2: { cbn [calls push_call]. rewrite !speeches_app.
       apply choose_voice_errors in Hc as [-> _]. cbn. split; [lia|tauto]. }
  destruct (choose_voice_key _ _ _ Hc) as [v ->].
  rewrite VOICE_MAP_key. cbn [GetVoices push_call].
  destruct (first_match (Spec.display_name v) (GetVoices s)) as [voice|].
  - cbn [calls push_call push_line].
    exists [SetVolume (Z.max 0 (Z.min 100 (w_volume w))); SetRate r; SetVoice voice].
    rewrite <- !app_assoc. split; reflexivity.
  - cbn [calls push_call push_line].
    exists [SetVolume (Z.max 0 (Z.min 100 (w_volume w))); SetRate r].
    rewrite <- !app_assoc. split; reflexivity.
Qed.

(** X9: the volume passed to [speak] is clamped.  Whatever volume [speak]
    is called with, its thread's first call sets a volume from 0 to 100:
    the volume itself when it is in that range, the nearer end
    otherwise. *)
Theorem speak_clamps_volume (text language gender rate : value) (volume : Z)
    (s s1 : system) :
  exists w v tail,
    speak text language gender rate volume s
    = (Ok tt, push_thread w (push_call purge s)) /\
    calls (snd (run w s1)) = calls s1 ++ SetVolume v :: tail /\
    0 <= v <= 100 /\
    (0 <= volume <= 100 -> v = volume) /\
    (volume < 0 -> v = 0) /\ (100 < volume -> v = 100).
Proof.
  destruct (run_effect {| w_text := text; w_language := language;
                          w_gender := gender; w_rate := rate;
                          w_volume := volume |} s1) as (tail & Hc & _).
  cbn [w_volume] in Hc.
  eexists _, (Z.max 0 (Z.min 100 volume)), tail.
  split; [reflexivity|]. split; [exact Hc|]. lia.
Qed.

(** ** More on voice selection *)

Lemma first_match_first (voice_name : string) (before after : list sapi_voice)
    (v : sapi_voice) :
  Forall (fun u => matches voice_name u = false) before ->
  matches voice_name v = true ->
  first_match voice_name (before ++ v :: after) = Some v.
Proof.
  intros Hb Hv. unfold first_match.
  induction Hb as [|u before Hu _ IH]; cbn [app find].
  - rewrite Hv. reflexivity.
  - rewrite Hu. exact IH.
Qed.

(** X10: the first match wins.  When a voice is chosen and the engine
    enumerates voices of which [v] is the first whose description
    contains the chosen name, [select_voice] sets [v], prints the
    selection and returns the chosen key with its name. *)
Theorem select_voice_first_match (language gender : value)
    (chosen voice_name : string) (before after : list sapi_voice)
    (v : sapi_voice) (s : system) :
  choose_voice language gender = Ok chosen ->
  VOICE_MAP !! chosen = Some voice_name ->
  GetVoices s = before ++ v :: after ->
  Forall (fun u => matches voice_name u = false) before ->
  matches voice_name v = true ->
  select_voice language gender s
  = (Ok (chosen, voice_name),
     push_line (PrintSelected chosen voice_name) (push_call (SetVoice v) s)).
Proof.
  intros Hc Hm Hvs Hb Hv.
  unfold select_voice, bind, lift, get_voices. rewrite Hc, Hm, Hvs.
  rewrite (first_match_first voice_name before after v Hb Hv). reflexivity.
Qed.

Lemma select_voice_first_match_witness :
  select_voice (VStr "German") (VStr "None") (boot [zira; hedda; hedda_again])
  = (Ok ("DE_NEUTRAL"%string, "Microsoft Hedda Desktop"%string),
     push_line (PrintSelected "DE_NEUTRAL" "Microsoft Hedda Desktop")
       (push_call (SetVoice hedda) (boot [zira; hedda; hedda_again]))).
Proof.
  apply (select_voice_first_match (VStr "German") (VStr "None")
           "DE_NEUTRAL" "Microsoft Hedda Desktop" [zira] [hedda_again] hedda).
  - reflexivity.
  - vm_compute. reflexivity.
  - reflexivity.
  - repeat constructor.
  - vm_compute. reflexivity.
Defined.

(** X11: the only failure of [select_voice].  It raises exactly when the
    language or the gender is no string; it then raises
    [AttributeError], before anything is printed or sent to the engine.
    The lookup in [VOICE_MAP] never fails. *)
Theorem select_voice_error (language gender : value) (s : system) :
  (is_str language && is_str gender = false ->
   select_voice language gender s = (Raise AttributeError, s)) /\
  (forall e s', select_voice language gender s = (Raise e, s') ->
                e = AttributeError /\ s' = s /\
                is_str language && is_str gender = false).
Proof.
  assert (forall e, choose_voice language gender = Raise e ->
                    select_voice language gender s = (Raise e, s)) as Hraise.
  { intros e He. unfold select_voice, bind, lift. rewrite He. reflexivity. }
  split.
  - intros Hs.
    destruct (choose_voice language gender) as [chosen|e] eqn:Hc.
    + exfalso. unfold choose_voice, gender_is in Hc.
      destruct language; try discriminate Hc.
      destruct gender; try discriminate Hs;
        cbn [str_lower if_else] in Hc; destruct (startswith _ _); discriminate Hc.
    + pose proof (choose_voice_errors _ _ _ Hc) as [-> _]. apply Hraise. reflexivity.
  - intros e s' H.
    destruct (choose_voice language gender) as [chosen|e0] eqn:Hc.
    + exfalso. unfold select_voice, bind, lift, get_voices in H. rewrite Hc in H.
      destruct (choose_voice_key _ _ _ Hc) as [v ->].
      rewrite VOICE_MAP_key in H.
      destruct (first_match _ _); discriminate H.
    + rewrite (Hraise e0 eq_refl) in H. injection H as <- <-.
      pose proof (choose_voice_errors _ _ _ Hc) as [-> Hs]. auto.
Qed.

Lemma lower_app (a b : string) : lower (a +:+ b) = lower a +:+ lower b.
Proof.
  induction a as [|c a IH]; [reflexivity|].
  change (String (lower_ascii c) (lower (a +:+ b))
          = String (lower_ascii c) (lower a +:+ lower b)).
  f_equal. exact IH.
Qed.

Lemma startswith_app (a b p : string) :
  startswith a p = true -> startswith (a +:+ b) p = true.
Proof.
  revert a. induction p as [|c p IH]; intros a.
  { intros _. destruct (a +:+ b); reflexivity. }
  destruct a as [|c' a]; [discriminate|].
  change (startswith (String c' a) (String c p) = true ->
          startswith (String c' (a +:+ b)) (String c p) = true).
  cbn [startswith]. destruct (decide (c = c')); [apply IH|discriminate].
Qed.

(** X12: the language is matched by prefix.  A language that lowers to
    something starting with "german" keeps its voice whatever is
    appended to it ("German (Austria)" is German). *)
Theorem language_matched_by_prefix (language rest : string) (gender : value) :
  startswith (lower language) "german" = true ->
  choose_voice (VStr (language +:+ rest)) gender
  = choose_voice (VStr language) gender.
Proof.
  intros H. unfold choose_voice. cbn [str_lower].
  rewrite lower_app, (startswith_app _ _ _ H), H. reflexivity.
Qed.

Lemma language_matched_by_prefix_witness :
  choose_voice (VStr ("German" +:+ " (Austria)")) (VStr "Female")
  = choose_voice (VStr "German") (VStr "Female").
Proof.
  apply (language_matched_by_prefix "German" " (Austria)" (VStr "Female")).
  reflexivity.
Defined.

(** ** More on the message handler *)

(** X13: Cancel.  A message whose [Type] lowers to "cancel" prints the
    cancel line and sends one purge, starts no thread, and every other
    field it carries is ignored. *)
Theorem cancel_message (d : gmap string value) (t : string) (s : system) :
  d !! "Type" = Some (VStr t) -> lower t = "cancel"%string ->
  process_message (Ok (VDict d)) s
  = (Ok tt, push_call purge (push_line PrintCancel s)).
Proof.
  intros Ht Hl. apply (handle_cancel d t s); [|exact Hl].
  rewrite Ht. reflexivity.
Qed.

Lemma cancel_message_witness :
  process_message
    (Ok (VDict (<["Type" := VStr "CANCEL"]> (<["Payload" := VStr "ignored"]> ∅))))
    (boot [])
  = (Ok tt, push_call purge (push_line PrintCancel (boot []))).
Proof.
  apply (cancel_message _ "CANCEL"); vm_compute; reflexivity.
Defined.

(** X14: other types.  A message without [Type], or whose [Type] is a
    string that lowers to neither "say" nor "cancel", changes nothing:
    no call, no thread, nothing printed. *)
Theorem other_types_ignored (d : gmap string value) (t : string) (s : system) :
  default (VStr EmptyString) (d !! "Type") = VStr t ->
  lower t <> "say"%string -> lower t <> "cancel"%string ->
  process_message (Ok (VDict d)) s = (Ok tt, s).
Proof.
  intros Ht Hs Hc. unfold_handler. rewrite Ht. cbn [str_lower].
  destruct (decide (lower t = "say"%string)); [contradiction|].
  destruct (decide (lower t = "cancel"%string)); [contradiction|].
  reflexivity.
Qed.

Lemma other_types_ignored_witness :
  process_message (Ok (VDict (<["Type" := VStr "Ping"]> ∅))) (boot [])
  = (Ok tt, boot []).
Proof.
  apply (other_types_ignored _ "Ping"); [vm_compute; reflexivity|discriminate|discriminate].
Defined.

(** X15: JSON of the wrong shape.  A decoded value that is no object, or
    an object whose [Type] is no string, is reported as a message error
    ([AttributeError]) and dropped: the engine and the threads are
    untouched. *)
Theorem wrong_shape_reported (data : value) (s : system) :
  match data with
  | VDict d => is_str (default (VStr EmptyString) (d !! "Type")) = false
  | _ => True
  end ->
  process_message (Ok data) s
  = (Ok tt, push_line (PrintMessageError AttributeError) s).
Proof.
  destruct data as [| | | | | |d]; try reflexivity.
  intros Ht. unfold_handler.
  destruct (default (VStr EmptyString) (d !! "Type")); try discriminate Ht; reflexivity.
Qed.

Lemma wrong_shape_reported_witness :
  process_message (Ok (VList [VStr "Say"])) (boot [])
  = (Ok tt, push_line (PrintMessageError AttributeError) (boot [])).
Proof. apply (wrong_shape_reported (VList [VStr "Say"])). exact I. Defined.

(** X16: a Say whose [Voice] is no object.  The message is reported as a
    message error and dropped before anything reaches the engine: no
    purge, no thread. *)
Theorem say_with_bad_voice_dropped (d : gmap string value) (t : string)
    (voice : value) (s : system) :
  d !! "Type" = Some (VStr t) -> lower t = "say"%string ->
  d !! "Voice" = Some voice -> (forall vi, voice <> VDict vi) ->
  process_message (Ok (VDict d)) s
  = (Ok tt, push_line (PrintMessageError AttributeError) s).
Proof.
  intros Ht Hl Hv Hnd.
  assert (default (VStr EmptyString) (d !! "Type") = VStr t) as Ht'
    by (rewrite Ht; reflexivity).
  assert (default (VDict ∅) (d !! "Voice") = voice) as Hv'
    by (rewrite Hv; reflexivity).
  unfold_handler. rewrite Ht', Hv'. cbn [str_lower].
  rewrite Hl. destruct (decide ("say"%string = "say"%string)); [|congruence].
  destruct voice; try reflexivity. exfalso. eapply Hnd. reflexivity.
Qed.

Lemma say_with_bad_voice_dropped_witness :
  process_message
    (Ok (VDict (<["Type" := VStr "Say"]> (<["Payload" := VStr "Hello"]>
                 (<["Voice" := VStr "Male"]> ∅)))))
    (boot [])
  = (Ok tt, push_line (PrintMessageError AttributeError) (boot [])).
Proof.
  apply (say_with_bad_voice_dropped _ "Say" (VStr "Male"));
    [vm_compute; reflexivity|reflexivity|vm_compute; reflexivity|discriminate].
Defined.



(** ** What the engine is ever sent *)

Lemma run_calls_safe (w : worker) (s : system) :
  w_volume w = 100 ->
  exists new, calls (snd (run w s)) = calls s ++ new /\
              Forall (call_safe (GetVoices s)) new.
Proof.
  intros Hw.
  unfold run, select_voice, bind, lift, engine_call, print, get_voices, ret.
  rewrite Hw. change (Z.max 0 (Z.min 100 100)) with 100.
  destruct (rate_to_sapi (w_rate w)) as [r|e] eqn:Hr.
  2: { exists [SetVolume 100]. split; [reflexivity|].
       constructor; [reflexivity|constructor]. }
  pose proof (rate_to_sapi_range _ _ Hr) as Hrange.
  destruct (choose_voice (w_language w) (w_gender w)) as [chosen|e] eqn:Hc.
  2: { exists [SetVolume 100; SetRate r]. cbn [snd calls push_call].
       rewrite <- app_assoc. split; [reflexivity|].
       constructor; [reflexivity|]. constructor; [exact Hrange|constructor]. }
  destruct (choose_voice_key _ _ _ Hc) as [v ->].
  rewrite VOICE_MAP_key. cbn [GetVoices push_call].
  destruct (first_match (Spec.display_name v) (GetVoices s)) as [voice|] eqn:Hf.
  - exists [SetVolume 100; SetRate r; SetVoice voice; Speak (w_text w) 1].
    cbn [snd calls push_call push_line]. rewrite <- !app_assoc.
    split; [reflexivity|].
    apply find_some in Hf as [Hin Hm].
    constructor; [reflexivity|]. constructor; [exact Hrange|].
    constructor; [|constructor; [right; reflexivity|constructor]].
    split; [apply list_elem_of_In, Hin|].
    exists (Spec.key v), (Spec.display_name v).
    split; [apply VOICE_MAP_key|exact Hm].
  - exists [SetVolume 100; SetRate r; Speak (w_text w) 1].
    cbn [snd calls push_call push_line]. rewrite <- !app_assoc.
    split; [reflexivity|].
    constructor; [reflexivity|]. constructor; [exact Hrange|].
    constructor; [right; reflexivity|constructor].
Qed.

Lemma safe_step (voices : list sapi_voice) (s : system) (ev : event) :
  safe voices s -> safe voices (step s ev).
Proof.
  intros (Hv & Hthreads & Hcalls). destruct ev as [loaded|i]; cbn [step].
  - destruct (process_message_effect loaded s) as [Hv' Heff]. cbv zeta in Heff, Hv'.
    unfold safe. rewrite Hv', Hv. split; [reflexivity|].
    assert (call_safe voices purge) as Hp by (left; reflexivity).
    destruct Heff as [[-> ->]|[[-> ->]|[-> (w & -> & Hw)]]].
    + auto.
    + split; [assumption|]. apply Forall_app. auto.
    + split; apply Forall_app; auto.
  - unfold run_thread. destruct (threads s !! i) as [w|] eqn:Hi; [|repeat split; assumption].
    rewrite Forall_lookup in Hthreads. pose proof (Hthreads i w Hi) as Hw.
    match goal with |- safe voices (snd (run w ?s0)) =>
      destruct (run_calls_safe w s0 Hw) as (new & Hc & Hnew);
      destruct (run_effect w s0) as (_ & _ & _ & Ht & Hg) end.
    cbn [calls threads GetVoices] in Hc, Hnew, Ht, Hg.
    unfold safe. rewrite Hc, Ht, Hg, Hv. split; [reflexivity|]. split.
    + apply Forall_delete, Forall_lookup, Hthreads.
    + rewrite Hv in Hnew. apply Forall_app. auto.
Qed.

(** X19: what the engine is ever sent.  After any messages and any
    scheduling, every call the engine has received is one of: volume
    100; a rate from -10 to 10; a voice that the engine enumerates and
    whose description contains one of the names of [VOICE_MAP]; the
    purge; an asynchronous speak call.  In particular no speak call ever
    waits for the speech to end. *)
Theorem engine_calls_safe (evs : list event) (voices : list sapi_voice) :
  Forall (call_safe voices) (calls (exec evs (boot voices))).
Proof.
  assert (forall s, safe voices s -> safe voices (exec evs s)) as Hexec.
  { unfold exec. induction evs as [|ev evs IH]; intros s Hs; [exact Hs|].
    cbn [foldl]. apply IH, safe_step, Hs. }
  apply (Hexec (boot voices)). repeat split; constructor.
Qed.

(** ** Speak calls and purges, counted *)

Lemma thread_tail_counts (w : worker) (tail : list call) :
  thread_tail w tail ->
  (speeches tail <= 1)%nat /\ purges_sent tail = 0%nat.
Proof.
  intros [->|[r [->|[->|[v ->]]]]]; cbn; lia.
Qed.

Lemma paid_for_step (n : nat) (s : system) (ev : event) :
  paid_for n s -> paid_for (n + length (List.filter is_receive [ev])) (step s ev).
Proof.
  unfold paid_for. intros [Hpaid Hn]. destruct ev as [loaded|i]; cbn [step].
  - destruct (process_message_effect loaded s) as [_ Heff]. cbv zeta in Heff.
    destruct Heff as [[-> ->]|[[-> ->]|[-> (w & -> & Hw)]]];
      rewrite ?speeches_app, ?purges_sent_app, ?length_app; cbn; lia.
  - unfold run_thread. destruct (threads s !! i) as [w|] eqn:Hi; [|cbn; lia].
    match goal with |- context [run w ?s0] =>
      destruct (run_effect w s0) as (tail & Hc & Htail & Ht & _) end.
    cbn [calls threads] in Hc, Ht. rewrite Hc, Ht.
    apply thread_tail_counts in Htail as [Hsp Hpu].
    pose proof (lookup_lt_Some _ _ _ Hi) as Hlen.
    rewrite length_delete by eauto.
    rewrite speeches_app, purges_sent_app.
    change (SetVolume ?v :: tail) with ([SetVolume v] ++ tail).
    rewrite speeches_app, purges_sent_app. cbn. lia.
Qed.

(** X20: every speak call is paid for by a purge.  After any messages and
    any scheduling, the speak calls the engine has received and the
    threads still to run are together no more than the purges it has
    received, and the purges are no more than the messages handled. *)
Theorem speech_paid_for (evs : list event) (voices : list sapi_voice) :
  (speeches (calls (exec evs (boot voices)))
   + length (threads (exec evs (boot voices)))
   <= purges_sent (calls (exec evs (boot voices))))%nat /\
  (purges_sent (calls (exec evs (boot voices))) <= received evs)%nat.
Proof.
  assert (forall n s, paid_for n s -> paid_for (n + received evs) (exec evs s)) as Hexec.
  { unfold exec, received.
    induction evs as [|ev evs IH]; intros n s Hs.
    - cbn. rewrite Nat.add_0_r. exact Hs.
    - cbn [foldl]. apply (paid_for_step n s ev) in Hs. apply IH in Hs.
      change (ev :: evs) with ([ev] ++ evs). rewrite List.filter_app, length_app.
      rewrite Nat.add_assoc. exact Hs. }
  apply (Hexec 0%nat (boot voices)). split; cbn; lia.
Qed.

(** X21: in order.  When every thread runs before the next message is
    handled, no thread is left waiting and every speak call has a purge
    between it and the speak call before it, whatever the messages. *)
Theorem in_order_is_quiet (msgs : list (result value)) (voices : list sapi_voice) :
  threads (exec (in_order msgs) (boot voices)) = [] /\
  Spec.purge_before_each_speak false (calls (exec (in_order msgs) (boot voices))) = true.
Proof.
  apply (in_order_purges msgs (boot voices)). split; reflexivity.
Qed.

(** ** Cancel and the threads *)

Lemma run_returns (w : worker) (r : Z) (s : system) :
  rate_to_sapi (w_rate w) = Ok r ->
  is_str (w_language w) && is_str (w_gender w) = true ->
  exists settings s',
    run w s = (Ok tt, s') /\
    calls s' = calls s ++ settings ++ [Speak (w_text w) 1].
Proof.
  intros Hr Hs. destruct w as [text language gender rate volume].
  cbn [w_rate w_language w_gender w_text] in *.
  destruct language as [| | | |l| |]; try discriminate Hs.
  destruct gender as [| | | |g| |]; try discriminate Hs.
  pose proof (run_strings text l g rate volume r s Hr) as H. cbv zeta in H.
  destruct (first_match _ _) as [v|]; rewrite H.
  - exists [SetVolume (Z.max 0 (Z.min 100 volume)); SetRate r; SetVoice v]. eexists.
    split; [reflexivity|]. cbn [calls push_call push_line].
    rewrite <- !app_assoc. reflexivity.
  - exists [SetVolume (Z.max 0 (Z.min 100 volume)); SetRate r]. eexists.
    split; [reflexivity|]. cbn [calls push_call push_line].
    rewrite <- !app_assoc. reflexivity.
Qed.

Lemma session_of_speech (cs : list call) (text : value) :
  Spec.session_of (cs ++ [Speak text 1]) = Spec.Speaking.
Proof. unfold Spec.session_of. rewrite foldl_app. reflexivity. Qed.

(** X22: Cancel reaches only what has reached the engine.  [cancel_speech]
    leaves the waiting threads as they are, and a waiting thread with a
    good rate and strings for language and gender still makes its speak
    call when it runs after the purge: the session is then
    [Speaking]. *)
Theorem cancel_spares_waiting_threads (s : system) (i : nat) (w : worker) (r : Z) :
  threads s !! i = Some w ->
  rate_to_sapi (w_rate w) = Ok r ->
  is_str (w_language w) && is_str (w_gender w) = true ->
  threads (snd (cancel_speech s)) = threads s /\
  exists settings,
    calls (run_thread i (snd (cancel_speech s)))
    = calls s ++ [purge] ++ settings ++ [Speak (w_text w) 1] /\
    Spec.session_of (calls (run_thread i (snd (cancel_speech s)))) = Spec.Speaking.
Proof.
  intros Hi Hr Hs. split; [reflexivity|].
  unfold run_thread, cancel_speech, engine_call. cbn [snd threads push_call].
  rewrite Hi.
  match goal with |- context [run w ?s0] =>
    destruct (run_returns w r s0 Hr Hs) as (settings & s' & Hrun & Hc) end.
  rewrite Hrun. cbn [snd]. rewrite Hc. cbn [calls push_call].
  exists settings. split.
  - rewrite <- ?app_assoc. reflexivity.
  - rewrite ?app_assoc. apply session_of_speech.
Qed.

Lemma cancel_spares_waiting_threads_witness :
  Spec.session_of
    (calls (run_thread 0 (snd (cancel_speech
                                 (snd (process_message (Ok (say "one")) (boot [])))))))
  = Spec.Speaking.
Proof.
  assert (threads (snd (process_message (Ok (say "one")) (boot []))) !! 0%nat
          = Some {| w_text := VStr "one"; w_language := VStr "English";
                    w_gender := VStr "None"; w_rate := VInt 300; w_volume := 100 |})
    as Hi by (vm_compute; reflexivity).
  destruct (cancel_spares_waiting_threads _ 0%nat _ 5 Hi eq_refl eq_refl)
    as (_ & settings & _ & H).
  exact H.
Defined.

(** ** The Speaker field *)



(** ** The connection loop *)

(** X23: no message ends the connection.  While the loop is connected,
    receiving a text, whatever it decodes to, leaves it connected: the
    text is handled by [process_message], and the loop prints no error
    and does not sleep. *)
Theorem message_keeps_connection (l : listener) (loaded : result value) :
  connected l = true ->
  websocket_step l (Recv loaded)
  = {| program := snd (process_message loaded (program l)); connected := true;
       ws_stdout := ws_stdout l; sleeps := sleeps l |}.
Proof.
  intros Hc. unfold websocket_step. rewrite Hc.
  destruct (process_message_returns loaded (program l)) as [s' Hs'].
  rewrite Hs'. reflexivity.
Qed.

Lemma message_keeps_connection_witness :
  connected (websocket_step (websocket_loop [ConnectOk] (main []))
               (Recv (Raise JSONDecodeError))) = true.
Proof.
  rewrite (message_keeps_connection (websocket_loop [ConnectOk] (main []))
             (Raise JSONDecodeError) eq_refl).
  reflexivity.
Defined.

Lemma websocket_step_state (l : listener) (h : happening) :
  (program (websocket_step l h), connected (websocket_step l h))
  = match h, connected l with
    | ConnectFails _, false => (program l, false)
    | ConnectOk, false => (program l, true)
    | Recv loaded, true => (snd (process_message loaded (program l)), true)
    | RecvFails _, true => (program l, false)
    | ThreadRuns i, c => (run_thread i (program l), c)
    | _, c => (program l, c)
    end.
Proof.
  unfold websocket_step.
  destruct h as [e| |loaded|e|i], (connected l) eqn:Hc;
    rewrite ?Hc; try reflexivity.
  destruct (process_message_returns loaded (program l)) as [s' Hs'].
  rewrite Hs'. reflexivity.
Qed.

Lemma websocket_step_output (l : listener) (h : happening) :
  Forall (fun ln => forall e, ln <> PrintWebSocketError (inl e)) (ws_stdout l) ->
  Forall (fun ln => forall e, ln <> PrintWebSocketError (inl e))
    (ws_stdout (websocket_step l h)).
Proof.
  intros Hout.
  assert (forall c : transport_error + unit,
            Forall (fun ln => forall e, ln <> PrintWebSocketError (inl e))
              (ws_stdout l ++ [match c with
                               | inl e => PrintWebSocketError (inr e)
                               | inr _ => PrintConnected
                               end])) as Hmore.
  { intros c. apply Forall_app. split; [exact Hout|].
    constructor; [destruct c; discriminate|constructor]. }
  unfold websocket_step.
  destruct h as [e| |loaded|e|i], (connected l) eqn:Hc; try exact Hout.
  - exact (Hmore (inl e)).
  - exact (Hmore (inr tt)).
  - destruct (process_message_returns loaded (program l)) as [s' Hs'].
    rewrite Hs'. exact Hout.
  - exact (Hmore (inl e)).
Qed.

Lemma websocket_loop_program (hs : list happening) (l : listener) :
  program (websocket_loop hs l) = exec (handled hs (connected l)) (program l) /\
  (Forall (fun ln => forall e, ln <> PrintWebSocketError (inl e)) (ws_stdout l) ->
   Forall (fun ln => forall e, ln <> PrintWebSocketError (inl e))
     (ws_stdout (websocket_loop hs l))).
Proof.
  unfold websocket_loop, exec. revert l.
  induction hs as [|h hs IH]; intros l; [split; [reflexivity|auto]|].
  cbn [foldl].
  destruct (IH (websocket_step l h)) as [IHp IHo].
  pose proof (websocket_step_state l h) as Hst.
  pose proof (f_equal fst Hst) as Hp. pose proof (f_equal snd Hst) as Hcn.
  cbn [fst snd] in Hp, Hcn.
  split.
  - rewrite IHp, Hp, Hcn. cbn [handled].
    destruct h as [e| |loaded|e|i], (connected l); reflexivity.
  - intros Hout. apply IHo, websocket_step_output, Hout.
Qed.

(** X24: what the loop does.  From the start and whatever happens on the
    transport, the program has handled the texts received while
    connected, in the order they came, between the threads that ran;
    and every error the loop has printed has a transport cause, none
    a message. *)
Theorem websocket_loop_handles_in_order (hs : list happening)
    (voices : list sapi_voice) :
  program (websocket_loop hs (main voices)) = exec (handled hs false) (boot voices) /\
  Forall (fun ln => forall e, ln <> PrintWebSocketError (inl e))
    (ws_stdout (websocket_loop hs (main voices))).
Proof.
  destruct (websocket_loop_program hs (main voices)) as [Hp Ho].
  split; [exact Hp|]. apply Ho. constructor.
Qed.

(** ** The test server's payloads *)

(** X25: the test server's six payloads choose the six voices.  The
    messages [send_loop] builds from [payloads] make the listener choose
    EN_NEUTRAL, EN_FEMALE, EN_MALE, DE_NEUTRAL, DE_FEMALE and DE_MALE,
    in this order, and these are exactly the keys of [VOICE_MAP]. *)
Theorem payloads_cover_voice_map :
  flat_map voices_chosen (map test_message payloads)
  = map Ok ["EN_NEUTRAL"; "EN_FEMALE"; "EN_MALE";
            "DE_NEUTRAL"; "DE_FEMALE"; "DE_MALE"]%string /\
  forall chosen : string,
    is_Some (VOICE_MAP !! chosen) <->
    chosen ∈ ["EN_NEUTRAL"; "EN_FEMALE"; "EN_MALE";
              "DE_NEUTRAL"; "DE_FEMALE"; "DE_MALE"]%string.
Proof.
  split; [vm_compute; reflexivity|].
  intros chosen. split.
  - intros [name H]. unfold VOICE_MAP in H.
    repeat (apply lookup_insert_Some in H as [[<- _]|[_ H]];
            [repeat (first [apply list_elem_of_here | apply list_elem_of_further])|]).
    rewrite lookup_empty in H. discriminate H.
  - intros H. repeat (apply elem_of_cons in H as [->|H]; [vm_compute; eauto|]).
    apply elem_of_nil in H. contradiction.
Qed.
